(** * Cloudflare-Workers-Proxy: the request/response rewriting pipeline of
      [worker.js], embedded in Rocq.

    JavaScript strings are modelled as [string], read as the UTF-8 bytes of
    the text.  [Headers] objects are finite maps from lower-cased names to
    the list of values recorded under that name.  Exceptions are the [Throw]
    case of [Result].  The services of the hosting runtime that the worker
    calls but does not define (the WHATWG URL parser, [fetch], the UTF-8
    decoding behind [Response.text]) are the fields of the class [Runtime],
    and so is the text of the landing page, which the pipeline only hands
    on. *)

From Stdlib Require Import ZArith Ascii String List Bool Lia DecimalString.
From stdpp Require Import base option list strings gmap.

Local Open Scope Z_scope.

(** ** Exceptions *)

Inductive Result (A : Type) : Type :=
| Ok (a : A)
| Throw (message : string).
Arguments Ok {A} a.
Arguments Throw {A} message.

Definition bind {A B : Type} (r : Result A) (k : A → Result B) : Result B :=
  match r with
  | Ok a => k a
  | Throw m => Throw m
  end.

Notation "'let*' x := r 'in' k" := (bind r (λ x, k))
  (at level 10, x name, r at level 100, k at level 200).
Notation "'let*' ' p := r 'in' k" := (bind r (λ x, let 'p := x in k))
  (at level 10, p strict pattern, r at level 100, k at level 200).

(** ** String primitives of the language *)

Module JS.

Definition code (c : ascii) : nat := nat_of_ascii c.

(** The double quote, as a character and as a one-character string. *)
Definition dquote : ascii := "034"%char.
Definition DQ : string := String dquote "".

Definition between (lo hi : nat) (c : ascii) : bool :=
  (lo <=? code c)%nat && (code c <=? hi)%nat.

Definition isUpper : ascii → bool := between 65 90.
Definition isLower : ascii → bool := between 97 122.
Definition isDigit : ascii → bool := between 48 57.

(** [String.prototype.toLowerCase].  The worker only searches the result
    for ASCII text ([domain=], [path=], [cf-]), so the ASCII letters are
    folded and the bytes of all other characters are left as they are. *)
Definition lowerChar (c : ascii) : ascii :=
  if isUpper c then ascii_of_nat (code c + 32) else c.

Fixpoint toLowerCase (s : string) : string :=
  match s with
  | EmptyString => EmptyString
  | String c s' => String (lowerChar c) (toLowerCase s')
  end.

(** [s.startsWith(p)] *)
Fixpoint startsWith (p s : string) : bool :=
  match p, s with
  | EmptyString, _ => true
  | String a p', String b s' => Ascii.eqb a b && startsWith p' s'
  | String _ _, EmptyString => false
  end.

(** [s.includes(p)] *)
Fixpoint includes (p s : string) : bool :=
  startsWith p s ||
  match s with
  | EmptyString => false
  | String _ s' => includes p s'
  end.

(** [s.slice(1)] *)
Definition slice1 (s : string) : string :=
  match s with
  | EmptyString => EmptyString
  | String _ s' => s'
  end.

Fixpoint elem (c : ascii) (s : string) : bool :=
  match s with
  | EmptyString => false
  | String d s' => Ascii.eqb c d || elem c s'
  end.

(** *** [encodeURIComponent] *)

Definition uriUnreserved (c : ascii) : bool :=
  isUpper c || isLower c || isDigit c || elem c "-_.!~*'()".

Definition hexDigit (n : nat) : ascii :=
  match String.get n "0123456789ABCDEF" with
  | Some c => c
  | None => "0"%char
  end.

Definition percent (c : ascii) : string :=
  String "%" (String (hexDigit (code c / 16)) (String (hexDigit (code c mod 16)) "")).

Fixpoint encodeURIComponent (s : string) : string :=
  match s with
  | EmptyString => EmptyString
  | String c s' =>
      if uriUnreserved c then String c (encodeURIComponent s')
      else percent c +:+ encodeURIComponent s'
  end.

(** *** [decodeURIComponent]

    [None] stands for the [URIError] that the built-in throws.  The escaped
    octets have to form well-formed UTF-8; [Utf8] is the decoder's position
    inside a multi-octet sequence: how many continuation octets are still
    due and the range the next one must lie in. *)

Definition hexVal (c : ascii) : option nat :=
  if isDigit c then Some (code c - 48)%nat
  else if between 65 70 c then Some (code c - 55)%nat
  else if between 97 102 c then Some (code c - 87)%nat
  else None.

Record Utf8 := { due : nat; lo : nat; hi : nat }.

Definition utf8Start : Utf8 := {| due := 0; lo := 0; hi := 0 |}.

Definition utf8Lead (b : nat) : option Utf8 :=
  if (b <? 128)%nat then Some utf8Start
  else if (b <? 194)%nat then None
  else if (b <? 224)%nat then Some {| due := 1; lo := 128; hi := 191 |}
  else if (b =? 224)%nat then Some {| due := 2; lo := 160; hi := 191 |}
  else if (b =? 237)%nat then Some {| due := 2; lo := 128; hi := 159 |}
  else if (b <? 240)%nat then Some {| due := 2; lo := 128; hi := 191 |}
  else if (b =? 240)%nat then Some {| due := 3; lo := 144; hi := 191 |}
  else if (b <? 244)%nat then Some {| due := 3; lo := 128; hi := 191 |}
  else if (b =? 244)%nat then Some {| due := 3; lo := 128; hi := 143 |}
  else None.

Definition utf8Step (st : Utf8) (b : nat) : option Utf8 :=
  match due st with
  | O => utf8Lead b
  | S k =>
      if (lo st <=? b)%nat && (b <=? hi st)%nat
      then Some {| due := k; lo := 128; hi := 191 |}
      else None
  end.

Fixpoint decodeFrom (st : Utf8) (s : string) : option string :=
  match s with
  | EmptyString => match due st with O => Some EmptyString | S _ => None end
  | String c rest =>
      if Ascii.eqb c "%" then
        match rest with
        | String h1 (String h2 rest') =>
            match hexVal h1, hexVal h2 with
            | Some a, Some b =>
                let B := (16 * a + b)%nat in
                match utf8Step st B with
                | Some st' =>
                    match decodeFrom st' rest' with
                    | Some out => Some (String (ascii_of_nat B) out)
                    | None => None
                    end
                | None => None
                end
            | _, _ => None
            end
        | _ => None
        end
      else
        match due st with
        | O =>
            match decodeFrom st rest with
            | Some out => Some (String c out)
            | None => None
            end
        | S _ => None
        end
  end.

Definition decodeURIComponent (s : string) : option string :=
  decodeFrom utf8Start s.

(** *** [JSON.stringify] of an object with one string-valued property *)

Definition hexLower (n : nat) : ascii :=
  match String.get n "0123456789abcdef" with
  | Some c => c
  | None => "0"%char
  end.

Definition quoteChar (c : ascii) : string :=
  if Ascii.eqb c dquote then String "\" DQ
  else if Ascii.eqb c "\" then "\\"
  else if (code c =? 8)%nat then "\b"
  else if (code c =? 9)%nat then "\t"
  else if (code c =? 10)%nat then "\n"
  else if (code c =? 12)%nat then "\f"
  else if (code c =? 13)%nat then "\r"
  else if (code c <? 32)%nat then
    "\u00" +:+ String (hexLower (code c / 16)) (String (hexLower (code c mod 16)) "")
  else String c "".

Fixpoint quoteBody (s : string) : string :=
  match s with
  | EmptyString => EmptyString
  | String c s' => quoteChar c +:+ quoteBody s'
  end.

Definition QuoteJSONString (s : string) : string :=
  DQ +:+ quoteBody s +:+ DQ.

(** [JSON.stringify({ key: value })] *)
Definition stringifyObject1 (key value : string) : string :=
  "{" +:+ QuoteJSONString key +:+ ":" +:+ QuoteJSONString value +:+ "}".

End JS.

(** ** Regular expressions and [String.prototype.replace]

    A regular expression is modelled by its matcher at one position: given
    the text from that position on, the match that starts there, if any.
    The four expressions of the worker are written out by hand further down;
    none of them can match the empty string. *)

Module RegExp.
Import JS.

Record Match := {
  matched : string;          (* the text of the whole match *)
  captures : list string;    (* the capture groups, $1 first *)
  after : string             (* the text that follows the match *)
}.

Definition Matcher := string → option Match.

(** [lit p s]: the literal [p] at the start of [s]; what is left of [s]. *)
Fixpoint lit (p s : string) : option string :=
  match p, s with
  | EmptyString, _ => Some s
  | String a p', String b s' => if Ascii.eqb a b then lit p' s' else None
  | String _ _, EmptyString => None
  end.

(** The same under the [i] flag, for a pattern [p] written in lower case:
    the text that matched, in its own case, and what is left. *)
Fixpoint litCI (p s : string) : option (string * string) :=
  match p, s with
  | EmptyString, _ => Some (EmptyString, s)
  | String a p', String b s' =>
      if Ascii.eqb a (lowerChar b) then
        match litCI p' s' with
        | Some (m, r) => Some (String b m, r)
        | None => None
        end
      else None
  | String _ _, EmptyString => None
  end.

(** The longest run of characters satisfying [P], and what is left: a
    greedy [[...]*] with nothing after it in the expression. *)
Fixpoint span (P : ascii → bool) (s : string) : string * string :=
  match s with
  | EmptyString => (EmptyString, EmptyString)
  | String c s' =>
      if P c then let '(run, r) := span P s' in (String c run, r)
      else (EmptyString, s)
  end.

(** Every character of [s] satisfies [P]; [s] is empty or starts with a
    character that does not. *)
Fixpoint every (P : ascii → bool) (s : string) : bool :=
  match s with
  | EmptyString => true
  | String c s' => P c && every P s'
  end.

Definition stopsAt (P : ascii → bool) (s : string) : bool :=
  match s with
  | EmptyString => true
  | String c _ => negb (P c)
  end.

(** [re.test(s)] for an expression without the [g] flag. *)
Fixpoint test (re : Matcher) (s : string) : bool :=
  match re s with
  | Some _ => true
  | None =>
      match s with
      | EmptyString => false
      | String _ s' => test re s'
      end
  end.

(** *** The replacement template: [GetSubstitution] of ECMA-262 *)

Definition digitVal (c : ascii) : option nat :=
  if isDigit c then Some (code c - 48)%nat else None.

Definition group (caps : list string) (index : nat) : string :=
  default EmptyString (caps !! (index - 1)%nat).

Definition validIndex (caps : list string) (index : nat) : bool :=
  (1 <=? index)%nat && (index <=? length caps)%nat.

Fixpoint GetSubstitution (m : string) (before : string) (aft : string)
    (caps : list string) (template : string) : string :=
  let sub := GetSubstitution m before aft caps in
  match template with
  | EmptyString => EmptyString
  | String c t =>
      if negb (Ascii.eqb c "$") then String c (sub t)
      else
        match t with
        | EmptyString => "$"
        | String d t' =>
            if Ascii.eqb d "$" then String "$" (sub t')
            else if Ascii.eqb d "`" then before +:+ sub t'
            else if Ascii.eqb d "&" then m +:+ sub t'
            else if Ascii.eqb d "'" then aft +:+ sub t'
            else
              match digitVal d with
              | None => String "$" (sub t)
              | Some n1 =>
                  let oneDigit :=
                    if validIndex caps n1 then group caps n1 +:+ sub t'
                    else String "$" (String d (sub t')) in
                  match t' with
                  | EmptyString => oneDigit
                  | String e t'' =>
                      match digitVal e with
                      | None => oneDigit
                      | Some n2 =>
                          let index := (10 * n1 + n2)%nat in
                          if (length caps <? index)%nat then oneDigit
                          else if validIndex caps index
                          then group caps index +:+ sub t''
                          else String "$" (String d (String e (sub t'')))
                      end
                  end
              end
        end
  end.

(** What stands in for a match: computed from the text before it and the
    match itself. *)
Definition Replacer := string → Match → string.

(** [s.replace(re, template)] with a string as second argument *)
Definition byTemplate (template : string) : Replacer :=
  λ before m, GetSubstitution (matched m) before (after m) (captures m) template.

(** [s.replace(re, f)] with a function: its result is used as it is. *)
Definition byFunction (f : Match → string) : Replacer := λ _ m, f m.

Definition snoc (s : string) (c : ascii) : string := s +:+ String c "".

(** [replace] without the [g] flag: the leftmost match only. *)
Fixpoint replaceFirstFrom (re : Matcher) (by_ : Replacer) (before s : string) : string :=
  match re s with
  | Some m => by_ before m +:+ after m
  | None =>
      match s with
      | EmptyString => EmptyString
      | String c s' => String c (replaceFirstFrom re by_ (snoc before c) s')
      end
  end.

Definition replaceFirst (re : Matcher) (by_ : Replacer) (s : string) : string :=
  replaceFirstFrom re by_ "" s.

(** [replace] with the [g] flag: every match, left to right, the search
    resuming where the previous match ended.  [skip] counts the characters
    of the current match that are still to be passed over. *)
Fixpoint replaceAllFrom (re : Matcher) (by_ : Replacer) (before : string)
    (skip : nat) (s : string) : string :=
  match skip with
  | S k =>
      match s with
      | EmptyString => EmptyString
      | String c s' => replaceAllFrom re by_ (snoc before c) k s'
      end
  | O =>
      match re s with
      | Some m =>
          by_ before m +:+
          match s with
          | EmptyString => EmptyString
          | String c s' =>
              match matched m with
              | EmptyString => String c (replaceAllFrom re by_ (snoc before c) 0 s')
              | String _ mm => replaceAllFrom re by_ (snoc before c) (String.length mm) s'
              end
          end
      | None =>
          match s with
          | EmptyString => EmptyString
          | String c s' => String c (replaceAllFrom re by_ (snoc before c) 0 s')
          end
      end
  end.

Definition replaceAll (re : Matcher) (by_ : Replacer) (s : string) : string :=
  replaceAllFrom re by_ "" 0 s.

(** A matcher is sound when a match is a non-empty prefix of the text it
    was found in. *)
Definition sound (re : Matcher) : Prop :=
  ∀ s m, re s = Some m → s = matched m +:+ after m ∧ matched m ≠ "".

(** A replacer is local when it reads neither the text before the match
    nor the text after it. *)
Definition local_ (by_ : Replacer) : Prop :=
  ∀ b b' m m', matched m = matched m' → captures m = captures m' →
    by_ b m = by_ b' m'.

(** The text [t] does not disturb the search in [pre]: at every position
    of [pre], the match found in [pre +:+ t] is the match found in [pre]. *)
Definition undisturbed (re : Matcher) (pre t : string) : Prop :=
  ∀ pre1 pre2, pre = pre1 +:+ pre2 → pre2 ≠ "" →
    match re pre2 with
    | Some m =>
        re (pre2 +:+ t) =
          Some {| matched := matched m; captures := captures m;
                  after := after m +:+ t |}
    | None => re (pre2 +:+ t) = None
    end.

(** *** The expressions of the worker *)

(** [(href|src|action)]: the name, and what is left.  The three names
    start with different letters, so at most one alternative applies. *)
Definition attrName (s : string) : option (string * string) :=
  match lit "href" s with
  | Some r => Some ("href", r)
  | None =>
      match lit "src" s with
      | Some r => Some ("src", r)
      | None =>
          match lit "action" s with
          | Some r => Some ("action", r)
          | None => None
          end
      end
  end.

Definition isQuote (c : ascii) : bool := Ascii.eqb c dquote || Ascii.eqb c "'".

(** The character class of the two quotes, double and single (written
    [Q] in the comments below) *)
Definition quote (s : string) : option (string * string) :=
  match s with
  | String c r => if isQuote c then Some (String c "", r) else None
  | EmptyString => None
  end.

(** [((href|src|action)=Q)]: group 1, group 2, and what is left. *)
Definition attrPrefix (s : string) : option (string * string * string) :=
  match attrName s with
  | Some (a, r1) =>
      match lit "=" r1 with
      | Some r2 =>
          match quote r2 with
          | Some (q, r3) => Some (a +:+ "=" +:+ q, a, r3)
          | None => None
          end
      | None => None
      end
  | None => None
  end.

(** [/((href|src|action)=Q)\/(?!\/)/] *)
Definition rootRelative : Matcher := λ s,
  match attrPrefix s with
  | Some (p1, p2, r) =>
      match lit "/" r with
      | Some r' =>
          if startsWith "/" r' then None
          else Some {| matched := p1 +:+ "/"; captures := [p1; p2]; after := r' |}
      | None => None
      end
  | None => None
  end.

(** The negated class of [/] and the two quotes *)
Definition hostChar (c : ascii) : bool := negb (Ascii.eqb c "/" || isQuote c).

(** [/((href|src|action)=Q)\/\/(H+)/], [H] the negated class above *)
Definition protocolRelative : Matcher := λ s,
  match attrPrefix s with
  | Some (p1, p2, r) =>
      match lit "//" r with
      | Some r' =>
          match span hostChar r' with
          | (EmptyString, _) => None
          | (p3, r'') =>
              Some {| matched := p1 +:+ "//" +:+ p3; captures := [p1; p2; p3]; after := r'' |}
          end
      | None => None
      end
  | None => None
  end.

(** The attribute names and the quotes of the two expressions above, and
    the texts that start with one of the names *)
Definition attributes : list string := ["href"; "src"; "action"].
Definition quotes : list string := [DQ; "'"].

Definition startsAttr (t : string) : Prop :=
  ∃ a r, a ∈ attributes ∧ t = a +:+ r.

(** [openHost pre]: the end of [pre] lies inside a match of
    [protocolRelative] that is still running, that is, [pre] ends with a
    name, [=], a quote, two slashes and characters of a host only. *)
Definition openHostHere (s : string) : bool :=
  match attrPrefix s with
  | Some (_, _, r) =>
      match lit "//" r with
      | Some h => every hostChar h
      | None => false
      end
  | None => false
  end.

Fixpoint openHost (pre : string) : bool :=
  openHostHere pre ||
  match pre with
  | EmptyString => false
  | String _ pre' => openHost pre'
  end.

(** What the template [$1/e/] puts in place of a match of [rootRelative],
    as a replacer that reads the match only. *)
Definition insertAfter (e : string) : Replacer :=
  λ _ m, matched m +:+ e +:+ "/".

(** The class [[^;]] *)
Definition notSemicolon (c : ascii) : bool := negb (Ascii.eqb c ";").

(** [/domain=[^;]+/i] *)
Definition domainAttr : Matcher := λ s,
  match litCI "domain=" s with
  | Some (name, r) =>
      match span notSemicolon r with
      | (EmptyString, _) => None
      | (value, r') => Some {| matched := name +:+ value; captures := []; after := r' |}
      end
  | None => None
  end.

(** [/path=/i] *)
Definition pathAttr : Matcher := λ s,
  match litCI "path=" s with
  | Some (name, r) => Some {| matched := name; captures := []; after := r |}
  | None => None
  end.

End RegExp.

(** ** The objects of the runtime *)

(** [Headers]: names are compared without regard to case, so every entry is
    kept under its lower-cased name, with the values in the order in which
    they were appended. *)
Module Headers.
Import JS.

Abbreviation t := (gmap string (list string)).

(** [h.get(name)]: [null] when absent, else the values joined by a comma *)
Definition get (name : string) (h : t) : option string :=
  match h !! toLowerCase name with
  | Some (v :: vs) => Some (String.concat ", " (v :: vs))
  | _ => None
  end.

(** [h.getAll(name)], which the runtime offers for [Set-Cookie] *)
Definition getAll (name : string) (h : t) : list string :=
  default [] (h !! toLowerCase name).

Definition set (name value : string) (h : t) : t :=
  <[toLowerCase name := [value]]> h.

Definition append (name value : string) (h : t) : t :=
  <[toLowerCase name := getAll name h ++ [value]]> h.

Definition delete (name : string) (h : t) : t :=
  base.delete (toLowerCase name) h.

(** [new Headers([...h].filter(([name]) => keep(name)))] *)
Definition filterNames (keep : string → bool) (h : t) : t :=
  filter (λ entry, keep entry.1 = true) h.

End Headers.

(** A parsed URL, with the properties the worker reads. *)
Module URL.
Record t := {
  href : string;
  protocol : string;
  host : string;
  hostname : string;
  pathname : string;
  search : string;
  origin : string
}.
End URL.

(** A body is absent, a stream that is handed on without being read (given
    here by the bytes it will deliver), or text held in memory. *)
Inductive Body :=
| Null
| Stream (bytes : string)
| Text (text : string).

Module Request.
Record t := {
  url : string;
  method : string;
  headers : Headers.t;
  body : Body;
  redirect : string
}.
End Request.

Module Response.
Record t := {
  status : Z;
  statusText : string;
  headers : Headers.t;
  body : Body;
  url : string
}.
End Response.

(** What the worker takes from its runtime. *)
Class Runtime := {
  (** [new URL(input)] and [new URL(input, base)]; throws on an invalid URL *)
  URL_new : string → option string → Result URL.t;
  (** [await fetch(request)] *)
  fetch : Request.t → Result Response.t;
  (** [await response.text()] *)
  Response_text : Response.t → Result string;
  (** the messages of the errors the [Response] constructor throws *)
  statusRangeMessage : string;
  nullBodyMessage : string;
  (** the static landing page that [getRootHtml()] returns *)
  getRootHtml : string
}.

(** ** The worker *)

(** [const PROXY_DOMAIN] *)
Definition PROXY_DOMAIN : string := "".

(** An object literal: its own enumerable properties, in source order. *)
Abbreviation Obj V := (list (string * V)).

Fixpoint ownProperty {V} (o : Obj V) (name : string) : option V :=
  match o with
  | [] => None
  | (k, v) :: o' => if String.eqb k name then Some v else ownProperty o' name
  end.

(** [const specialCases] *)
Definition specialCases : Obj (Obj string) :=
  [ ("i.pximg.net",
      [ ("Origin", "DELETE"); ("Referer", "https://www.pixiv.net/") ]);
    ("i-cf.pximg.net",
      [ ("Origin", "DELETE"); ("Referer", "https://www.pixiv.net/") ]);
    ("*",
      [ ("Origin", "DELETE"); ("Referer", "DELETE") ]) ].

(** [specialCases] is an ordinary object, so a property read that finds no
    own property goes on to [Object.prototype].  All members of
    [Object.prototype] are objects or functions, hence truthy, and none of
    them has an enumerable own property. *)
Definition objectPrototype : list string :=
  [ "constructor"; "__defineGetter__"; "__defineSetter__"; "hasOwnProperty";
    "__lookupGetter__"; "__lookupSetter__"; "isPrototypeOf";
    "propertyIsEnumerable"; "toString"; "valueOf"; "__proto__";
    "toLocaleString" ].

Inductive Property (V : Type) :=
| Own (v : V)       (* an own property of the literal *)
| Inherited         (* a member of [Object.prototype] *)
| Undefined.
Arguments Own {V} v.
Arguments Inherited {V}.
Arguments Undefined {V}.

(** [o[name]] *)
Definition readProperty {V} (o : Obj V) (name : string) : Property V :=
  match ownProperty o name with
  | Some v => Own v
  | None =>
      if existsb (String.eqb name) objectPrototype then Inherited else Undefined
  end.

(** [a || b] *)
Definition orElse {V} (a b : Property V) : Property V :=
  match a with
  | Undefined => b
  | _ => a
  end.

(** [Object.entries(x)] *)
Definition entries (x : Property (Obj string)) : Result (Obj string) :=
  match x with
  | Own rules => Ok rules
  | Inherited => Ok []
  | Undefined => Throw "Cannot convert undefined or null to object"
  end.

(** The body of the loop of [handleSpecialCases]: one rule applied to the
    headers of the request. *)
Definition applyRule (h : Headers.t) (rule : string * string) : Headers.t :=
  let '(key, value) := rule in
  if String.eqb value "KEEP" then h
  else if String.eqb value "DELETE" then Headers.delete key h
  else Headers.set key value h.

(** The callback of [setCookies.forEach] in [handleSetCookieHeaders]: the
    rewritten directive that is appended for [cookie]. *)
Definition rewriteDomain (cookie : string) : string :=
  if JS.includes "domain=" (JS.toLowerCase cookie)
  then RegExp.replaceFirst RegExp.domainAttr
         (RegExp.byTemplate ("domain=" +:+ PROXY_DOMAIN)) cookie
  else cookie +:+ "; Domain=" +:+ PROXY_DOMAIN.

Definition rewriteCookie (cookie : string) : string :=
  let modifiedCookie := rewriteDomain cookie in
  if negb (RegExp.test RegExp.pathAttr modifiedCookie)
  then modifiedCookie +:+ "; Path=/"
  else modifiedCookie.

Definition handleSetCookieHeaders (response : Response.t) : Headers.t :=
  let newHeaders := Response.headers response in
  let setCookies := Headers.getAll "Set-Cookie" (Response.headers response) in
  let newHeaders := Headers.delete "Set-Cookie" newHeaders in
  fold_left
    (λ newHeaders cookie, Headers.append "Set-Cookie" (rewriteCookie cookie) newHeaders)
    setCookies newHeaders.

Definition ensureProtocol (url defaultProtocol : string) : string :=
  if JS.startsWith "http://" url || JS.startsWith "https://" url then url
  else defaultProtocol +:+ "//" +:+ url.

Definition setNoCacheHeaders (headers : Headers.t) : Headers.t :=
  Headers.set "Cache-Control" "no-store" headers.

Definition setCorsHeaders (headers : Headers.t) : Headers.t :=
  Headers.set "Access-Control-Allow-Headers" "*"
    (Headers.set "Access-Control-Allow-Methods" "GET, POST, PUT, DELETE"
       (Headers.set "Access-Control-Allow-Origin" "*" headers)).

(** The two substitutions of [handleHtmlContent], in the order in which
    they are applied. *)
Definition rewriteRootRelative (encodedOrigin text : string) : string :=
  RegExp.replaceAll RegExp.rootRelative
    (RegExp.byTemplate ("$1/" +:+ encodedOrigin +:+ "/")) text.

(** The arrow function handed to the second [replace]: it is called with
    the match and the capture groups in order, and names the first two of
    them [p1] and [p2]. *)
Definition protocolRelativeCallback (m : RegExp.Match) : string :=
  let p1 := RegExp.group (RegExp.captures m) 1 in
  let p2 := RegExp.group (RegExp.captures m) 2 in
  let newUrl := "/" +:+ JS.encodeURIComponent ("https://" +:+ p2) in
  p1 +:+ newUrl.

Definition rewriteProtocolRelative (text : string) : string :=
  RegExp.replaceAll RegExp.protocolRelative
    (RegExp.byFunction protocolRelativeCallback) text.

Definition redirectStatuses : list Z := [301; 302; 303; 307; 308].

Definition isRedirect (status : Z) : bool :=
  existsb (Z.eqb status) redirectStatuses.

(** The statuses whose response may carry no body (Fetch standard) *)
Definition nullBodyStatus (status : Z) : bool :=
  existsb (Z.eqb status) [101; 103; 204; 205; 304].

(** [n.toString()] for a length *)
Definition toString (n : nat) : string :=
  NilEmpty.string_of_uint (Nat.to_uint n).

Section Worker.
Context `{rt : Runtime}.

(** [new Response(body, { status, statusText, headers })].  The constructor
    throws a [RangeError] for a status outside 200..599 and a [TypeError]
    for a body given with a null-body status; a string body without a
    [Content-Type] gets the one of plain text.  The response it builds has
    an empty [url]. *)
Definition Response_new (body : Body) (status : Z) (statusText : string)
    (headers : Headers.t) : Result Response.t :=
  if (status <? 200) || (599 <? status) then Throw statusRangeMessage
  else
    match body with
    | Null =>
        Ok {| Response.status := status; Response.statusText := statusText;
              Response.headers := headers; Response.body := Null;
              Response.url := "" |}
    | _ =>
        if nullBodyStatus status then Throw nullBodyMessage
        else
          let headers :=
            match body, Headers.get "Content-Type" headers with
            | Text _, None =>
                Headers.append "Content-Type" "text/plain;charset=UTF-8" headers
            | _, _ => headers
            end in
          Ok {| Response.status := status; Response.statusText := statusText;
                Response.headers := headers; Response.body := body;
                Response.url := "" |}
    end.

(** [new Request(input, { headers, method, body, redirect })]: the input is
    parsed, and the request carries the serialised URL. *)
Definition Request_new (input : string) (headers : Headers.t) (method : string)
    (body : Body) (redirect : string) : Result Request.t :=
  let* parsed := URL_new input None in
  Ok {| Request.url := URL.href parsed; Request.method := method;
        Request.headers := headers; Request.body := body;
        Request.redirect := redirect |}.

Definition handleSpecialCases (request : Request.t) : Result Request.t :=
  let* url := URL_new (Request.url request) None in
  let* rules :=
    entries (orElse (readProperty specialCases (URL.hostname url))
                    (readProperty specialCases "*")) in
  Ok {| Request.url := Request.url request;
        Request.method := Request.method request;
        Request.headers := fold_left applyRule rules (Request.headers request);
        Request.body := Request.body request;
        Request.redirect := Request.redirect request |}.

Definition handleRedirect (response : Response.t) : Result Response.t :=
  match Headers.get "location" (Response.headers response) with
  | None | Some EmptyString =>
      Response_new Null (Response.status response) (Response.statusText response)
        (Response.headers response)
  | Some location =>
      let* modifiedLocation :=
        match URL_new location (Some (Response.url response)) with
        | Ok locationUrl =>
            Ok ("/" +:+ JS.encodeURIComponent (URL.href locationUrl))
        | Throw _ =>
            let* baseUrl := URL_new (Response.url response) None in
            let* absoluteUrl := URL_new location (Some (URL.href baseUrl)) in
            Ok ("/" +:+ JS.encodeURIComponent (URL.href absoluteUrl))
        end in
      let newHeaders := Headers.set "Location" modifiedLocation (Response.headers response) in
      Response_new Null (Response.status response) (Response.statusText response)
        newHeaders
  end.

Definition handleHtmlContent (response : Response.t) (protocol host actualUrlStr : string)
    : Result string :=
  let* originalText := Response_text response in
  let* target := URL_new actualUrlStr None in
  let targetOrigin := URL.origin target in
  let encodedOrigin := JS.encodeURIComponent targetOrigin in
  let modifiedText := rewriteRootRelative encodedOrigin originalText in
  let modifiedText := rewriteProtocolRelative modifiedText in
  Ok modifiedText.

Definition jsonResponse (error : string) (status : Z) : Response.t :=
  {| Response.status := status; Response.statusText := "";
     Response.headers := Headers.set "Content-Type" "application/json; charset=utf-8" ∅;
     Response.body := Text (JS.stringifyObject1 "error" error);
     Response.url := "" |}.

Definition filterHeaders (headers : Headers.t) (filterFunc : string → bool) : Headers.t :=
  Headers.filterNames filterFunc headers.

(** [handleRequest], from the top of its [try] block to the call of
    [handleSpecialCases]: either the response of an early [return] or the
    request that is about to be fetched, with the two values the rest of
    the function still uses. *)
Definition targetRequest (request : Request.t)
    : Result (Response.t + (Request.t * URL.t * string)) :=
  let* url := URL_new (Request.url request) None in
  if String.eqb (URL.pathname url) "/" then
    Ok (inl {| Response.status := 200; Response.statusText := "";
               Response.headers := Headers.set "Content-Type" "text/html; charset=utf-8" ∅;
               Response.body := Text getRootHtml; Response.url := "" |})
  else
    let encodedActualUrlStr := JS.slice1 (URL.pathname url) in
    match JS.decodeURIComponent encodedActualUrlStr with
    | None => Ok (inl (jsonResponse "Invalid URL encoding." 400))
    | Some actualUrlStr =>
        let actualUrlStr := ensureProtocol actualUrlStr (URL.protocol url) in
        let* targetUrl := URL_new actualUrlStr None in
        let actualUrlStr := actualUrlStr +:+ URL.search url in
        let newHeaders :=
          filterHeaders (Request.headers request)
            (λ name, negb (JS.startsWith "cf-" (JS.toLowerCase name))) in
        let* modifiedRequest :=
          Request_new actualUrlStr newHeaders (Request.method request)
            (if String.eqb (Request.method request) "GET"
                || String.eqb (Request.method request) "HEAD"
             then Null else Request.body request)
            "manual" in
        let* modifiedRequest := handleSpecialCases modifiedRequest in
        Ok (inr (modifiedRequest, url, actualUrlStr))
    end.

(** [handleRequest], from the origin's response to the end of the [try]
    block. *)
Definition respond (url : URL.t) (actualUrlStr : string) (response : Response.t)
    : Result Response.t :=
  let headersWithCookies := handleSetCookieHeaders response in
  if isRedirect (Response.status response) then handleRedirect response
  else
    let* '(body, headersWithCookies) :=
      if match Headers.get "Content-Type" (Response.headers response) with
         | Some contentType => JS.includes "text/html" contentType
         | None => false
         end
      then
        let* body :=
          handleHtmlContent response (URL.protocol url) (URL.host url) actualUrlStr in
        Ok (Text body,
            Headers.set "Content-Length" (toString (String.length body)) headersWithCookies)
      else Ok (Response.body response, headersWithCookies) in
    let* modifiedResponse :=
      Response_new body (Response.status response) (Response.statusText response)
        headersWithCookies in
    Ok {| Response.status := Response.status modifiedResponse;
          Response.statusText := Response.statusText modifiedResponse;
          Response.headers :=
            setCorsHeaders (setNoCacheHeaders (Response.headers modifiedResponse));
          Response.body := Response.body modifiedResponse;
          Response.url := Response.url modifiedResponse |}.

(** The [try] block of [handleRequest] *)
Definition handleRequestTry (request : Request.t) : Result Response.t :=
  let* prepared := targetRequest request in
  match prepared with
  | inl early => Ok early
  | inr (modifiedRequest, url, actualUrlStr) =>
      let* response := fetch modifiedRequest in
      respond url actualUrlStr response
  end.

(** [handleRequest]: the [try] block and its [catch] *)
Definition handleRequest (request : Request.t) : Response.t :=
  match handleRequestTry request with
  | Ok response => response
  | Throw message => jsonResponse message 500
  end.

End Worker.

(** ** A small runtime to run the worker on

    [Demo.runtime] instantiates [Runtime] so that the worker can be
    evaluated on concrete requests.  Its URL parser covers plain
    [http(s)://host[:port][/path][?query]] inputs and, against a base,
    the empty reference and references that start with a single [/];
    everything else is rejected.
    Its [fetch] answers every request with the response [origin]. *)
Module Demo.
Import JS RegExp.

Definition scheme (s : string) : option (string * string) :=
  match lit "https://" s with
  | Some r => Some ("https:", r)
  | None =>
      match lit "http://" s with
      | Some r => Some ("http:", r)
      | None => None
      end
  end.

Definition parseAbsolute (s : string) : Result URL.t :=
  match scheme s with
  | None => Throw "Invalid URL"
  | Some (protocol, r) =>
      let '(host, r1) := span (λ c, negb (elem c "/?#")) r in
      let '(path, r2) := span (λ c, negb (elem c "?#")) r1 in
      let '(query, _) := span (λ c, negb (Ascii.eqb c "#")) r2 in
      let '(hostname, _) := span (λ c, negb (Ascii.eqb c ":")) host in
      let pathname := if String.eqb path "" then "/" else path in
      let search := if String.eqb query "?" then "" else query in
      if String.eqb hostname "" then Throw "Invalid URL"
      else
        Ok {| URL.href := protocol +:+ "//" +:+ host +:+ pathname +:+ query;
              URL.protocol := protocol; URL.host := host;
              URL.hostname := hostname; URL.pathname := pathname;
              URL.search := search;
              URL.origin := protocol +:+ "//" +:+ host |}
  end.

Definition parse (input : string) (base : option string) : Result URL.t :=
  match parseAbsolute input, base with
  | Ok u, _ => Ok u
  | Throw m, None => Throw m
  | Throw m, Some b =>
      let* baseUrl := parseAbsolute b in
      if String.eqb input "" then Ok baseUrl
      else if startsWith "/" input && negb (startsWith "//" input)
      then parseAbsolute (URL.origin baseUrl +:+ input)
      else Throw m
  end.

Definition bodyText (b : Body) : string :=
  match b with
  | Null => ""
  | Stream bytes => bytes
  | Text text => text
  end.

Definition runtime (origin : Result Response.t) : Runtime :=
  {| URL_new := parse;
     fetch := λ _, origin;
     Response_text := λ r, Ok (bodyText (Response.body r));
     statusRangeMessage := "The status provided is outside the range [200, 599].";
     nullBodyMessage := "Response with null body status cannot have body";
     getRootHtml := "<!DOCTYPE html>" |}.

Definition headers (l : list (string * list string)) : Headers.t := list_to_map l.

Definition get (url : string) (h : Headers.t) : Request.t :=
  {| Request.url := url; Request.method := "GET"; Request.headers := h;
     Request.body := Null; Request.redirect := "follow" |}.

Definition response (status : Z) (statusText url : string) (h : Headers.t)
    (body : Body) : Response.t :=
  {| Response.status := status; Response.statusText := statusText;
     Response.headers := h; Response.body := body; Response.url := url |}.

(** The URL of a request to the proxy for [https://a.com/x?y=1], parsed. *)
Definition incoming : URL.t :=
  {| URL.href := "https://proxy.example/https%3A%2F%2Fa.com%2Fx?y=1";
     URL.protocol := "https:"; URL.host := "proxy.example";
     URL.hostname := "proxy.example";
     URL.pathname := "/https%3A%2F%2Fa.com%2Fx"; URL.search := "?y=1";
     URL.origin := "https://proxy.example" |}.

End Demo.


(** ** Well-formed UTF-8

    The texts that [decodeURIComponent] can produce from escapes only:
    the octets, run through the states of the decoder, end outside a
    multi-octet sequence. *)
Fixpoint wellFormedFrom (st : JS.Utf8) (s : string) : bool :=
  match s with
  | EmptyString => match JS.due st with O => true | S _ => false end
  | String c s' =>
      match JS.utf8Step st (JS.code c) with
      | Some st' => wellFormedFrom st' s'
      | None => false
      end
  end.

Definition wellFormed (s : string) : bool := wellFormedFrom JS.utf8Start s.

(** The characters of an encoded text: unreserved ones and the percent
    sign, none of which is a delimiter of a URL. *)
Definition encodedChar (c : ascii) : bool :=
  (JS.uriUnreserved c || Ascii.eqb c "%") && negb (JS.elem c "/?#&=$ ;").

(** A text that ends in an escape that is cut short *)
Definition cutShort (t : string) : Prop :=
  t = "%" ∨ ∃ c, t = String "%" (String c "").

(** The text holds one of the attribute names followed by [=], a quote
    and a slash. *)
Definition hasRelativeLink (text : string) : bool :=
  existsb
    (λ a, existsb (λ q, JS.includes (a +:+ "=" +:+ q +:+ "/") text) RegExp.quotes)
    RegExp.attributes.

(** The states the decoder can be in: inside a sequence, the next octet
    is asked to be a continuation octet. *)
Definition settled (st : JS.Utf8) : Prop :=
  JS.due st = O ∨ (128 ≤ JS.lo st)%nat.

(** * Properties *)

#[local] Arguments String.append !_ _ : simpl nomatch.
#[local] Arguments Ascii.eqb : simpl never.

(** ** Strings *)

Section StringFacts.
Import JS.

Lemma app_assoc_s (a b c : string) : (a +:+ b) +:+ c = a +:+ b +:+ c.
Proof. induction a as [|x a IH]; simpl; [done | by f_equal]. Qed.

Lemma app_nil_r_s (a : string) : a +:+ "" = a.
Proof. induction a as [|x a IH]; simpl; [done | by f_equal]. Qed.

Lemma app_inv_head_s (a b c : string) : a +:+ b = a +:+ c → b = c.
Proof. induction a as [|x a IH]; simpl; [done | intros [= ?]; auto]. Qed.

(** Two ways of cutting the same text: one cut lies before the other. *)
Lemma app_eq_app_s (a b c d : string) :
  a +:+ b = c +:+ d →
  (∃ k, a = c +:+ k ∧ d = k +:+ b) ∨ (∃ k, k ≠ "" ∧ c = a +:+ k ∧ b = k +:+ d).
Proof.
  revert c. induction a as [|x a IH]; intros c Heq; simpl in Heq.
  - destruct c as [|y c].
    + left. exists "". simpl in *. by subst.
    + right. exists (String y c). by subst.
  - destruct c as [|y c]; simpl in Heq.
    + left. exists (String x a). by subst.
    + injection Heq as -> Heq. destruct (IH _ Heq) as [[k [-> ->]]|[k (Hk & -> & ->)]].
      * left. by exists k.
      * right. by exists k.
Qed.

Lemma toLowerCase_app (a b : string) :
  toLowerCase (a +:+ b) = toLowerCase a +:+ toLowerCase b.
Proof. induction a as [|x a IH]; simpl; [done | by f_equal]. Qed.

Lemma startsWith_app (p s : string) : startsWith p (p +:+ s) = true.
Proof.
  induction p as [|x p IH]; simpl; [done |].
  by rewrite Ascii.eqb_refl, IH.
Qed.

Lemma startsWith_spec (p s : string) :
  startsWith p s = true ↔ ∃ r, s = p +:+ r.
Proof.
  revert s. induction p as [|x p IH]; intros s; simpl.
  - split; [eauto | done].
  - destruct s as [|y s].
    + split; [done | by intros [r ?]].
    + rewrite andb_true_iff, IH. split.
      * intros [->%Ascii.eqb_eq [r ->]]. eauto.
      * intros [r [= -> ->]]. rewrite Ascii.eqb_refl. eauto.
Qed.

Lemma includes_spec (p s : string) :
  includes p s = true ↔ ∃ pre t, s = pre +:+ t ∧ startsWith p t = true.
Proof.
  induction s as [|c s IH]; simpl.
  - rewrite orb_false_r. split.
    + intros Hp. by exists "", "".
    + intros (pre & t & Heq & Hp). destruct pre; [|done]. simpl in Heq. by subst.
  - rewrite orb_true_iff, IH. split.
    + intros [Hp|(pre & t & -> & Hp)].
      * by exists "", (String c s).
      * by exists (String c pre), t.
    + intros (pre & t & Heq & Hp). destruct pre as [|x pre]; simpl in Heq.
      * left. by subst.
      * injection Heq as -> ->. right. eauto.
Qed.

Lemma includes_app_r (p a b : string) :
  includes p b = true → includes p (a +:+ b) = true.
Proof.
  intros (pre & t & -> & Hp)%includes_spec. apply includes_spec.
  exists (a +:+ pre), t. by rewrite app_assoc_s.
Qed.

Lemma includes_app_l (p a b : string) :
  includes p a = true → includes p (a +:+ b) = true.
Proof.
  intros (pre & t & -> & [r ->]%startsWith_spec)%includes_spec.
  apply includes_spec. exists pre, (p +:+ r +:+ b).
  by rewrite !app_assoc_s, startsWith_app.
Qed.

Lemma elem_app (c : ascii) (a b : string) :
  elem c (a +:+ b) = elem c a || elem c b.
Proof. induction a as [|x a IH]; simpl; [done | by rewrite IH, orb_assoc]. Qed.

End StringFacts.

(** ** Matching and replacing *)

Section RegExpFacts.
Import JS RegExp.

Lemma length_app_s (a b : string) :
  String.length (a +:+ b) = (String.length a + String.length b)%nat.
Proof. induction a as [|x a IH]; simpl; [done | by f_equal]. Qed.

Lemma lit_spec (p s r : string) : lit p s = Some r ↔ s = p +:+ r.
Proof.
  revert s. induction p as [|x p IH]; intros s; simpl.
  - split; [by intros [= ->] | by intros ->].
  - destruct s as [|y s]; [done |].
    destruct (Ascii.eqb_spec x y) as [->|Hne].
    + rewrite IH. split; [by intros -> | by intros [= ->]].
    + split; [done | intros [= ? ?]; done].
Qed.

Lemma lit_here (p r : string) : lit p (p +:+ r) = Some r.
Proof. by apply lit_spec. Qed.

Lemma lit_app (p s r t : string) :
  lit p s = Some r → lit p (s +:+ t) = Some (r +:+ t).
Proof. rewrite !lit_spec. intros ->. by rewrite app_assoc_s. Qed.

(** A literal that fails on [s] but succeeds on a longer text reaches
    beyond the end of [s]. *)
Lemma lit_app_none (p s t r : string) :
  lit p s = None → lit p (s +:+ t) = Some r →
  ∃ k, k ≠ "" ∧ p = s +:+ k ∧ t = k +:+ r.
Proof.
  intros Hnone Hsome%lit_spec.
  destruct (app_eq_app_s _ _ _ _ Hsome) as [(k & -> & _)|(k & Hk & -> & ->)].
  - by rewrite (proj2 (lit_spec p (p +:+ k) k)) in Hnone.
  - eauto.
Qed.

Lemma litCI_sound (p s m r : string) :
  litCI p s = Some (m, r) → s = m +:+ r ∧ toLowerCase m = p.
Proof.
  revert s m. induction p as [|x p IH]; intros s m; simpl.
  - by intros [= <- <-].
  - destruct s as [|y s]; [done |].
    destruct (Ascii.eqb_spec x (lowerChar y)) as [->|]; [|done].
    destruct (litCI p s) as [[m' r']|] eqn:Hrec; [|done].
    intros [= <- <-]. destruct (IH _ _ Hrec) as [-> <-]. done.
Qed.

Lemma litCI_complete (m r : string) :
  litCI (toLowerCase m) (m +:+ r) = Some (m, r).
Proof.
  induction m as [|x m IH]; simpl; [done |].
  by rewrite Ascii.eqb_refl, IH.
Qed.

Lemma litCI_startsWith (p s : string) :
  startsWith p (toLowerCase s) = true ↔ is_Some (litCI p s).
Proof.
  revert s. induction p as [|x p IH]; intros s; simpl.
  - split; [eauto | done].
  - destruct s as [|y s]; simpl.
    + split; [done | by intros [? ?]].
    + destruct (Ascii.eqb_spec x (lowerChar y)) as [->|]; simpl.
      * rewrite IH. destruct (litCI p s) as [[m r]|]; split; eauto; by intros [? ?].
      * split; [done | by intros [? ?]].
Qed.

Lemma span_sound (P : ascii → bool) (s run r : string) :
  span P s = (run, r) →
  s = run +:+ r ∧ every P run = true ∧ stopsAt P r = true.
Proof.
  revert run r. induction s as [|c s IH]; intros run r; simpl.
  - by intros [= <- <-].
  - destruct (P c) eqn:HP.
    + destruct (span P s) as [run' r'] eqn:Hrec. intros [= <- <-].
      destruct (IH _ _ eq_refl) as (-> & ? & ?). simpl. by rewrite HP.
    + intros [= <- <-]. simpl. by rewrite HP.
Qed.

Lemma span_complete (P : ascii → bool) (run r : string) :
  every P run = true → stopsAt P r = true → span P (run +:+ r) = (run, r).
Proof.
  intros Hrun Hr. induction run as [|c run IH]; simpl in *.
  - destruct r as [|c r]; [done |]. simpl in *.
    by destruct (P c).
  - apply andb_true_iff in Hrun as [HP Hrun]. by rewrite HP, IH.
Qed.

(** A run that stops inside [s] stops at the same place in [s +:+ t]. *)
Lemma span_app (P : ascii → bool) (s run r t : string) :
  span P s = (run, r) → r ≠ "" → span P (s +:+ t) = (run, r +:+ t).
Proof.
  intros (-> & Hrun & Hr)%span_sound Hne. rewrite app_assoc_s.
  apply span_complete; [done |]. by destruct r.
Qed.

Lemma span_all (P : ascii → bool) (s run : string) :
  span P s = (run, "") → run = s ∧ every P s = true.
Proof. intros (-> & ? & _)%span_sound. by rewrite app_nil_r_s. Qed.

(** *** Templates without a dollar sign *)

Lemma GetSubstitution_plain (m before aft : string) (caps : list string) (t : string) :
  elem "$" t = false → GetSubstitution m before aft caps t = t.
Proof.
  induction t as [|c t IH]; simpl; [done |].
  intros [Hc Ht]%orb_false_iff. rewrite Ascii.eqb_sym, Hc. simpl. by rewrite IH.
Qed.

Lemma hexDigit_plain (n : nat) : Ascii.eqb "$" (hexDigit n) = false.
Proof. do 17 (destruct n as [|n]; [done |]). done. Qed.

Lemma uriUnreserved_plain (c : ascii) :
  uriUnreserved c = true → Ascii.eqb "$" c = false.
Proof. destruct (Ascii.eqb_spec "$" c) as [<-|]; [by vm_compute | done]. Qed.

Lemma encodeURIComponent_plain (s : string) :
  elem "$" (encodeURIComponent s) = false.
Proof.
  induction s as [|c s IH]; simpl; [done |].
  destruct (uriUnreserved c) eqn:Hc; simpl.
  - by rewrite (uriUnreserved_plain _ Hc), IH.
  - by rewrite !hexDigit_plain, IH.
Qed.

(** *** [replace] *)

Section Replace.
Variable re : Matcher.
Variable by_ : Replacer.

Lemma replaceFirstFrom_cases (before s : string) :
  (∃ pre t m, s = pre +:+ t ∧ re t = Some m ∧
     (∀ pre1 pre2, pre = pre1 +:+ pre2 → pre2 ≠ "" → re (pre2 +:+ t) = None) ∧
     replaceFirstFrom re by_ before s = pre +:+ by_ (before +:+ pre) m +:+ after m)
  ∨ ((∀ pre t, s = pre +:+ t → re t = None) ∧ replaceFirstFrom re by_ before s = s).
Proof.
  assert (Hempty : ∀ t pre1 pre2 : string,
            "" = pre1 +:+ pre2 → pre2 ≠ "" → re (pre2 +:+ t) = None).
  { intros t [|x pre1] [|y pre2] Heq Hne; simpl in Heq; done. }
  revert before. induction s as [|c s IH]; intros before; simpl.
  - destruct (re "") as [m|] eqn:Hre.
    + left. exists "", "", m. simpl. rewrite app_nil_r_s. eauto.
    + right. split; [|done]. intros pre t Heq.
      destruct pre; [|done]. simpl in Heq. by subst.
  - destruct (re (String c s)) as [m|] eqn:Hre.
    + left. exists "", (String c s), m. simpl. rewrite app_nil_r_s. eauto.
    + destruct (IH (snoc before c)) as [(pre & t & m & -> & Ht & Hpre & ->)|[Hnone ->]].
      * left. exists (String c pre), t, m. split; [done|]. split; [done|]. split.
        -- intros pre1 pre2 Heq Hne. destruct pre1 as [|x pre1]; simpl in Heq.
           ++ by subst pre2.
           ++ injection Heq as -> ->. by apply (Hpre pre1).
        -- unfold snoc. simpl. by rewrite app_assoc_s.
      * right. split; [|done]. intros pre t Heq.
        destruct pre as [|x pre]; simpl in Heq; [by subst |].
        injection Heq as -> ->. by apply (Hnone pre).
Qed.

Hypothesis re_sound : sound re.
Hypothesis by_local : local_ by_.

Lemma re_nil : re "" = None.
Proof.
  destruct (re "") as [m|] eqn:Hre; [|done].
  destruct (re_sound _ _ Hre) as [Heq Hne]. by destruct (matched m).
Qed.

Lemma replaceAllFrom_before (b b' : string) (k : nat) (s : string) :
  replaceAllFrom re by_ b k s = replaceAllFrom re by_ b' k s.
Proof.
  revert b b' k. induction s as [|c s IH]; intros b b' k.
  - destruct k; simpl; [|done].
    destruct (re "") as [m|]; [|done]. by rewrite (by_local b b' m m).
  - destruct k as [|k]; simpl.
    + destruct (re (String c s)) as [m|].
      * rewrite (by_local b b' m m) by done.
        destruct (matched m); f_equal; [f_equal|]; apply IH.
      * f_equal. apply IH.
    + apply IH.
Qed.

Lemma replaceAllFrom_skip (b x y : string) :
  replaceAllFrom re by_ b (String.length x) (x +:+ y) = replaceAll re by_ y.
Proof.
  revert b. induction x as [|c x IH]; intros b; simpl.
  - apply replaceAllFrom_before.
  - apply IH.
Qed.

Lemma replaceAll_nil : replaceAll re by_ "" = "".
Proof. unfold replaceAll. simpl. by rewrite re_nil. Qed.

Lemma replaceAll_match (s : string) (m : Match) :
  re s = Some m → replaceAll re by_ s = by_ "" m +:+ replaceAll re by_ (after m).
Proof.
  intros Hre. destruct (re_sound _ _ Hre) as [Heq Hne].
  unfold replaceAll at 1. destruct s as [|c s].
  { by destruct (matched m). }
  simpl. rewrite Hre. f_equal.
  destruct (matched m) as [|c' mm]; [done |].
  simpl in Heq. injection Heq as -> ->. apply replaceAllFrom_skip.
Qed.

Lemma replaceAll_skip (c : ascii) (s : string) :
  re (String c s) = None →
  replaceAll re by_ (String c s) = String c (replaceAll re by_ s).
Proof.
  intros Hre. unfold replaceAll at 1. simpl. rewrite Hre. f_equal.
  apply replaceAllFrom_before.
Qed.

(** Without a match anywhere, the text is left as it is. *)
Lemma replaceAll_none (s : string) :
  (∀ pre t, s = pre +:+ t → re t = None) → replaceAll re by_ s = s.
Proof.
  induction s as [|c s IH]; intros Hnone.
  - apply replaceAll_nil.
  - rewrite replaceAll_skip by (by apply (Hnone "")). f_equal.
    apply IH. intros pre t ->. by apply (Hnone (String c pre)).
Qed.

Lemma replaceAll_app (pre t : string) :
  undisturbed re pre t →
  replaceAll re by_ (pre +:+ t) = replaceAll re by_ pre +:+ replaceAll re by_ t.
Proof.
  remember (String.length pre) as n eqn:Hn.
  revert pre Hn. induction (lt_wf n) as [n _ IH]. intros pre -> Hund.
  destruct pre as [|c pre].
  { by rewrite replaceAll_nil. }
  pose proof (Hund "" (String c pre) eq_refl ltac:(done)) as Hhere.
  destruct (re (String c pre)) as [m|] eqn:Hre.
  - rewrite (replaceAll_match _ _ Hhere), (replaceAll_match _ _ Hre). simpl.
    destruct (re_sound _ _ Hre) as [Heq Hne].
    rewrite (by_local "" "" _ m) by done. rewrite app_assoc_s. f_equal.
    apply (IH (String.length (after m))); [|done|].
    + rewrite Heq, length_app_s. destruct (matched m); simpl; [done | lia].
    + intros pre1 pre2 Hsplit. apply (Hund (matched m +:+ pre1)).
      by rewrite Heq, Hsplit, app_assoc_s.
  - simpl. rewrite !replaceAll_skip by done. simpl. f_equal.
    apply (IH (String.length pre)); [simpl; lia | done |].
    intros pre1 pre2 ->. by apply (Hund (String c pre1)).
Qed.

End Replace.

(** Two replacers that agree on the matches of [re] replace alike. *)
Lemma replaceAllFrom_ext (re : Matcher) (by1 by2 : Replacer) :
  (∀ b s m, re s = Some m → by1 b m = by2 b m) →
  ∀ s b k, replaceAllFrom re by1 b k s = replaceAllFrom re by2 b k s.
Proof.
  intros Hext. induction s as [|c s IH]; intros b k.
  - destruct k; simpl; [|done].
    destruct (re "") as [m|] eqn:Hre; [|done]. by rewrite (Hext _ _ _ Hre).
  - destruct k as [|k]; simpl; [|apply IH].
    destruct (re (String c s)) as [m|] eqn:Hre.
    + rewrite (Hext _ _ _ Hre). destruct (matched m); by rewrite IH.
    + by rewrite IH.
Qed.

End RegExpFacts.

(** ** The expressions of the worker *)

Section WorkerExpressions.
Import JS RegExp.

Ltac in_list H :=
  repeat (apply elem_of_cons in H as [->|H]); try (by apply elem_of_nil in H).

Lemma attrName_complete (a r : string) :
  a ∈ attributes → attrName (a +:+ r) = Some (a, r).
Proof. intros Ha. unfold attributes in Ha. in_list Ha; done. Qed.

Lemma attrName_sound (s a r : string) :
  attrName s = Some (a, r) → a ∈ attributes ∧ s = a +:+ r.
Proof.
  unfold attrName, attributes.
  destruct (lit "href" s) eqn:H1; [intros [= <- <-]; apply lit_spec in H1; set_solver |].
  destruct (lit "src" s) eqn:H2; [intros [= <- <-]; apply lit_spec in H2; set_solver |].
  destruct (lit "action" s) eqn:H3; [intros [= <- <-]; apply lit_spec in H3; set_solver |].
  done.
Qed.

Lemma quote_sound (s q r : string) :
  quote s = Some (q, r) → q ∈ quotes ∧ s = q +:+ r.
Proof.
  destruct s as [|c s]; simpl; [done |].
  destruct (isQuote c) eqn:Hc; [|done]. intros [= <- <-].
  unfold isQuote in Hc. apply orb_true_iff in Hc as [->%Ascii.eqb_eq | ->%Ascii.eqb_eq];
    unfold quotes, DQ; set_solver.
Qed.

Lemma quote_complete (q r : string) :
  q ∈ quotes → quote (q +:+ r) = Some (q, r).
Proof. intros Hq. unfold quotes in Hq. in_list Hq; done. Qed.

Lemma attrPrefix_sound (s p1 p2 r : string) :
  attrPrefix s = Some (p1, p2, r) →
  ∃ q, p2 ∈ attributes ∧ q ∈ quotes ∧ p1 = p2 +:+ "=" +:+ q ∧ s = p1 +:+ r.
Proof.
  unfold attrPrefix.
  destruct (attrName s) as [[a r1]|] eqn:Ha; [|done].
  destruct (lit "=" r1) as [r2|] eqn:He; [|done].
  destruct (quote r2) as [[q r3]|] eqn:Hq; [|done].
  intros [= <- <- <-].
  apply attrName_sound in Ha as [Ha ->]. apply lit_spec in He as ->.
  apply quote_sound in Hq as [Hq ->].
  exists q. by rewrite !app_assoc_s.
Qed.

Lemma attrPrefix_complete (a q r : string) :
  a ∈ attributes → q ∈ quotes →
  attrPrefix (a +:+ "=" +:+ q +:+ r) = Some (a +:+ "=" +:+ q, a, r).
Proof.
  intros Ha Hq. unfold attrPrefix. rewrite attrName_complete by done.
  simpl. by rewrite quote_complete.
Qed.

Lemma attrPrefix_app (s t p1 p2 r : string) :
  attrPrefix s = Some (p1, p2, r) →
  attrPrefix (s +:+ t) = Some (p1, p2, r +:+ t).
Proof.
  intros (q & Ha & Hq & -> & ->)%attrPrefix_sound.
  rewrite !app_assoc_s. by rewrite (attrPrefix_complete p2 q (r +:+ t)).
Qed.

(** A text that starts with an attribute name starts with [h], [s] or [a]. *)
Lemma startsAttr_first (t : string) :
  startsAttr t →
  ∃ c t', t = String c t' ∧ (c = "h" ∨ c = "s" ∨ c = "a")%char.
Proof.
  intros (a & r & Ha & ->). unfold attributes in Ha. in_list Ha; simpl; eauto 6.
Qed.

(** No attribute prefix runs from inside [s] into a following attribute
    name: past its first character, a prefix holds none of [h], [s], [a]. *)
Lemma attrPrefix_app_none (s t : string) :
  attrPrefix s = None → s ≠ "" → startsAttr t → attrPrefix (s +:+ t) = None.
Proof.
  intros Hnone Hne (c & t' & -> & Hc)%startsAttr_first.
  destruct (attrPrefix (s +:+ String c t')) as [[[p1 p2] r]|] eqn:Hsome; [|done].
  exfalso. apply attrPrefix_sound in Hsome as (q & Ha & Hq & -> & Heq).
  destruct (app_eq_app_s _ _ _ _ Heq) as [(k & -> & _)|(k & Hk & Hp1 & Ht)].
  - rewrite !app_assoc_s in Hnone. by rewrite attrPrefix_complete in Hnone.
  - destruct k as [|x k]; [done |]. simpl in Ht. injection Ht as <- _.
    unfold attributes in Ha. unfold quotes in Hq.
    in_list Ha; in_list Hq;
      repeat (destruct s as [|? s]; simpl in Hp1;
              [ try done; injection Hp1 as <-; by destruct Hc as [?|[?|?]]
              | injection Hp1 as <- Hp1 ]);
      by destruct s.
Qed.

Lemma rootRelative_sound : sound rootRelative.
Proof.
  intros s m. unfold rootRelative.
  destruct (attrPrefix s) as [[[p1 p2] r]|] eqn:Hp; [|done].
  destruct (lit "/" r) as [r'|] eqn:Hl; [|done].
  destruct (startsWith "/" r'); [done |]. intros [= <-]. simpl.
  apply attrPrefix_sound in Hp as (q & _ & _ & _ & ->). apply lit_spec in Hl as ->.
  split; [by rewrite !app_assoc_s |]. by destruct p1.
Qed.

Lemma rootRelative_complete (a q r : string) :
  a ∈ attributes → q ∈ quotes → startsWith "/" r = false →
  rootRelative (a +:+ "=" +:+ q +:+ "/" +:+ r) =
    Some {| matched := (a +:+ "=" +:+ q) +:+ "/";
            captures := [a +:+ "=" +:+ q; a]; after := r |}.
Proof.
  intros Ha Hq Hr. unfold rootRelative. rewrite attrPrefix_complete by done.
  by rewrite lit_here, Hr.
Qed.

Lemma rootRelative_inv (s : string) (m : Match) :
  rootRelative s = Some m →
  ∃ a q, a ∈ attributes ∧ q ∈ quotes ∧ startsWith "/" (after m) = false ∧
    captures m = [a +:+ "=" +:+ q; a] ∧ matched m = (a +:+ "=" +:+ q) +:+ "/" ∧
    s = a +:+ "=" +:+ q +:+ "/" +:+ after m.
Proof.
  unfold rootRelative.
  destruct (attrPrefix s) as [[[p1 p2] r]|] eqn:Hp; [|done].
  destruct (lit "/" r) as [r'|] eqn:Hl; [|done].
  destruct (startsWith "/" r') eqn:Hr; [done |]. intros [= <-]. simpl.
  apply attrPrefix_sound in Hp as (q & Ha & Hq & -> & ->). apply lit_spec in Hl as ->.
  exists p2, q. by rewrite !app_assoc_s.
Qed.

Lemma rootRelative_undisturbed (pre t : string) :
  startsAttr t → undisturbed rootRelative pre t.
Proof.
  intros Ht pre1 pre2 _ Hne. unfold rootRelative.
  destruct (attrPrefix pre2) as [[[p1 p2] r]|] eqn:Hp.
  - rewrite (attrPrefix_app _ t _ _ _ Hp).
    destruct (startsAttr_first _ Ht) as (c & t' & -> & Hc).
    destruct r as [|x r]; simpl.
    + by destruct Hc as [-> | [-> | ->]].
    + destruct (Ascii.eqb "/" x); [|done].
      destruct r as [|y r]; simpl.
      * by destruct Hc as [-> | [-> | ->]].
      * by destruct (Ascii.eqb "/" y).
  - by rewrite attrPrefix_app_none.
Qed.

Lemma insertAfter_local (e : string) : local_ (insertAfter e).
Proof. intros b b' m m' Hm _. unfold insertAfter. by rewrite Hm. Qed.

(** On the matches of [rootRelative], the template [$1/e/] inserts [e/]
    after the match, whenever [e] holds no dollar sign. *)
Lemma template_rootRelative (e before s : string) (m : Match) :
  elem "$" e = false → rootRelative s = Some m →
  byTemplate ("$1/" +:+ e +:+ "/") before m = insertAfter e before m.
Proof.
  intros He (a & q & _ & _ & _ & Hcaps & Hm & _)%rootRelative_inv.
  unfold byTemplate, insertAfter. rewrite Hcaps, Hm. simpl.
  rewrite GetSubstitution_plain.
  - unfold group. simpl. by rewrite !app_assoc_s.
  - by rewrite elem_app, He.
Qed.

Lemma rewriteRootRelative_insert (e text : string) :
  elem "$" e = false →
  rewriteRootRelative e text = replaceAll rootRelative (insertAfter e) text.
Proof.
  intros He. unfold rewriteRootRelative, replaceAll.
  apply replaceAllFrom_ext. intros b s m. by apply template_rootRelative.
Qed.

Lemma protocolRelative_sound : sound protocolRelative.
Proof.
  intros s m. unfold protocolRelative.
  destruct (attrPrefix s) as [[[p1 p2] r]|] eqn:Hp; [|done].
  destruct (lit "//" r) as [r'|] eqn:Hl; [|done].
  destruct (span hostChar r') as [run r''] eqn:Hs.
  destruct run as [|c run]; [done |]. intros [= <-]. simpl.
  apply attrPrefix_sound in Hp as (q & _ & _ & _ & ->). apply lit_spec in Hl as ->.
  apply span_sound in Hs as (-> & _ & _).
  split; [by rewrite !app_assoc_s |]. by destruct p1.
Qed.

Lemma protocolRelative_complete (a q host r : string) :
  a ∈ attributes → q ∈ quotes →
  host ≠ "" → every hostChar host = true → stopsAt hostChar r = true →
  protocolRelative (a +:+ "=" +:+ q +:+ "//" +:+ host +:+ r) =
    Some {| matched := (a +:+ "=" +:+ q) +:+ "//" +:+ host;
            captures := [a +:+ "=" +:+ q; a; host]; after := r |}.
Proof.
  intros Ha Hq Hne Hhost Hr. unfold protocolRelative.
  rewrite attrPrefix_complete by done.
  rewrite lit_here, span_complete by done. by destruct host.
Qed.

Lemma openHost_suffix (pre1 pre2 : string) :
  openHost (pre1 +:+ pre2) = false → openHostHere pre2 = false.
Proof.
  induction pre1 as [|c pre1 IH]; simpl.
  - destruct pre2; [done |]. simpl. by intros [? _]%orb_false_iff.
  - intros [_ ?]%orb_false_iff. by apply IH.
Qed.

Lemma protocolRelative_undisturbed (pre t : string) :
  startsAttr t → openHost pre = false → undisturbed protocolRelative pre t.
Proof.
  intros Ht Hopen pre1 pre2 -> Hne.
  apply openHost_suffix in Hopen. unfold openHostHere in Hopen.
  unfold protocolRelative.
  destruct (attrPrefix pre2) as [[[p1 p2] r]|] eqn:Hp.
  - rewrite (attrPrefix_app _ t _ _ _ Hp).
    destruct (startsAttr_first _ Ht) as (c & t' & -> & Hc).
    destruct (lit "//" r) as [h|] eqn:Hl.
    + rewrite (lit_app _ _ _ (String c t') Hl).
      destruct (span hostChar h) as [run rr] eqn:Hs.
      destruct rr as [|x rr].
      { apply span_all in Hs as [_ Hs]. congruence. }
      rewrite (span_app _ _ _ _ (String c t') Hs) by done.
      by destruct run.
    + destruct (lit "//" (r +:+ String c t')) as [r'|] eqn:Hl'; [|done].
      destruct (lit_app_none _ _ _ _ Hl Hl') as (k & Hk & Hr & Hk').
      exfalso. destruct r as [|x [|y r]]; simpl in Hr.
      * subst k. injection Hk' as -> _. by destruct Hc as [? | [? | ?]].
      * injection Hr as <- <-. injection Hk' as -> _. by destruct Hc as [? | [? | ?]].
      * injection Hr as <- <- Hr. destruct r; simpl in Hr; [by subst | done].
  - by rewrite attrPrefix_app_none.
Qed.

End WorkerExpressions.

(** ** The rewriting of links in HTML text *)

Section HtmlLinks.
Import JS RegExp.

(** C6. In the root-relative substitution of [handleHtmlContent], every
    occurrence of href, src or action followed by [=], a quote and a slash
    that is not followed by a second slash gets the percent-encoded target
    origin and a slash inserted right after that slash, while the text
    before and after the occurrence is rewritten on its own; a text
    without such an occurrence is returned as it is; and for the origin
    https://a.com the attribute href=/x (in double quotes) becomes
    href=/https%3A%2F%2Fa.com/x. *)
Theorem root_relative_links_rewritten (targetOrigin : string) :
  let encodedOrigin := encodeURIComponent targetOrigin in
  (∀ pre a q rest,
     a ∈ attributes → q ∈ quotes → startsWith "/" rest = false →
     rewriteRootRelative encodedOrigin (pre +:+ a +:+ "=" +:+ q +:+ "/" +:+ rest) =
       rewriteRootRelative encodedOrigin pre +:+
       a +:+ "=" +:+ q +:+ "/" +:+ encodedOrigin +:+ "/" +:+
       rewriteRootRelative encodedOrigin rest)
  ∧ (∀ text,
       (∀ pre a q rest,
          a ∈ attributes → q ∈ quotes → startsWith "/" rest = false →
          text ≠ pre +:+ a +:+ "=" +:+ q +:+ "/" +:+ rest) →
       rewriteRootRelative encodedOrigin text = text)
  ∧ rewriteRootRelative (encodeURIComponent "https://a.com")
      ("href=" +:+ DQ +:+ "/x" +:+ DQ) =
    "href=" +:+ DQ +:+ "/https%3A%2F%2Fa.com/x" +:+ DQ.
Proof.
  intros e. pose proof (encodeURIComponent_plain targetOrigin) as He. fold e in He.
  split; [|split].
  - intros pre a q rest Ha Hq Hrest. rewrite !rewriteRootRelative_insert by done.
    rewrite (replaceAll_app _ _ rootRelative_sound (insertAfter_local e)).
    + f_equal.
      rewrite (replaceAll_match _ _ rootRelative_sound (insertAfter_local e) _ _
                 (rootRelative_complete a q rest Ha Hq Hrest)).
      unfold insertAfter. simpl. by rewrite !app_assoc_s.
    + apply rootRelative_undisturbed. exists a, ("=" +:+ q +:+ "/" +:+ rest). done.
  - intros text Hnone. rewrite rewriteRootRelative_insert by done.
    apply (replaceAll_none _ _ rootRelative_sound (insertAfter_local e)).
    intros pre t ->. destruct (rootRelative t) as [m|] eqn:Hm; [|done].
    apply rootRelative_inv in Hm as (a & q & Ha & Hq & Hrest & _ & _ & ->).
    by destruct (Hnone pre a q (after m)).
  - by vm_compute.
Qed.

Lemma root_relative_links_rewritten_witness :
  rewriteRootRelative (encodeURIComponent "https://a.com")
    ("<a " +:+ "href" +:+ "=" +:+ "'" +:+ "/" +:+ "x'>") =
  rewriteRootRelative (encodeURIComponent "https://a.com") "<a " +:+
  "href" +:+ "=" +:+ "'" +:+ "/" +:+ encodeURIComponent "https://a.com" +:+ "/" +:+
  rewriteRootRelative (encodeURIComponent "https://a.com") "x'>".
Proof.
  apply (proj1 (root_relative_links_rewritten "https://a.com")).
  - unfold attributes. apply list_elem_of_here.
  - unfold quotes. apply list_elem_of_further, list_elem_of_here.
  - reflexivity.
Defined.

Lemma protocolRelativeCallback_local : local_ (byFunction protocolRelativeCallback).
Proof.
  intros b b' m m' _ Hcaps. unfold byFunction, protocolRelativeCallback.
  by rewrite Hcaps.
Qed.

(** The path that the second substitution produces is built from the
    second capture group, the attribute name, as [p2] of the callback is. *)
Lemma protocol_relative_inserts_name (pre a q host rest : string) :
  a ∈ attributes → q ∈ quotes →
  host ≠ "" → every hostChar host = true → stopsAt hostChar rest = true →
  openHost pre = false →
  rewriteProtocolRelative (pre +:+ a +:+ "=" +:+ q +:+ "//" +:+ host +:+ rest) =
    rewriteProtocolRelative pre +:+
    a +:+ "=" +:+ q +:+ "/" +:+ encodeURIComponent ("https://" +:+ a) +:+
    rewriteProtocolRelative rest.
Proof.
  intros Ha Hq Hne Hhost Hrest Hopen. unfold rewriteProtocolRelative.
  rewrite (replaceAll_app _ _ protocolRelative_sound protocolRelativeCallback_local).
  - f_equal.
    rewrite (replaceAll_match _ _ protocolRelative_sound protocolRelativeCallback_local
               _ _ (protocolRelative_complete a q host rest Ha Hq Hne Hhost Hrest)).
    unfold byFunction, protocolRelativeCallback, group. simpl.
    by rewrite !app_assoc_s.
  - apply protocolRelative_undisturbed; [|done].
    exists a, ("=" +:+ q +:+ "//" +:+ host +:+ rest). done.
Qed.

(** C7, as amended. In the protocol-relative substitution of
    [handleHtmlContent], an occurrence of href, src or action followed by
    [=], a quote, two slashes and a host (the longest run of characters
    other than the slash and the two quotes), when it does not start
    inside the host of an earlier occurrence, is replaced up to the end of
    the host by the name, [=], the quote and a path that consists of a
    slash and the percent-encoding of a text starting with https://; the
    text before the occurrence and the remainder of the URL after the host
    are not dropped: each is rewritten on its own and kept in place. *)
Theorem protocol_relative_links_rewritten (pre a q host rest : string) :
  a ∈ attributes → q ∈ quotes →
  host ≠ "" → every hostChar host = true → stopsAt hostChar rest = true →
  openHost pre = false →
  ∃ x,
    rewriteProtocolRelative (pre +:+ a +:+ "=" +:+ q +:+ "//" +:+ host +:+ rest) =
      rewriteProtocolRelative pre +:+
      a +:+ "=" +:+ q +:+ "/" +:+ encodeURIComponent ("https://" +:+ x) +:+
      rewriteProtocolRelative rest.
Proof. intros. exists a. by apply protocol_relative_inserts_name. Qed.

Lemma protocol_relative_links_rewritten_witness :
  ∃ x,
    rewriteProtocolRelative
      ("<script " +:+ "src" +:+ "=" +:+ "'" +:+ "//" +:+ "cdn.example.com" +:+ "/a.js'>") =
      rewriteProtocolRelative "<script " +:+
      "src" +:+ "=" +:+ "'" +:+ "/" +:+ encodeURIComponent ("https://" +:+ x) +:+
      rewriteProtocolRelative "/a.js'>".
Proof.
  apply protocol_relative_links_rewritten.
  - unfold attributes. apply list_elem_of_further, list_elem_of_here.
  - unfold quotes. apply list_elem_of_further, list_elem_of_here.
  - discriminate.
  - reflexivity.
  - reflexivity.
  - reflexivity.
Defined.

(** C7, as stated, fails: the text after the host is kept, so the value
    of the attribute is not replaced as a whole. *)
Lemma protocol_relative_remainder_kept :
  rewriteProtocolRelative ("src=" +:+ DQ +:+ "//cdn.example.com/a.js" +:+ DQ) =
    "src=" +:+ DQ +:+ "/https%3A%2F%2Fsrc" +:+ "/a.js" +:+ DQ
  ∧ rewriteProtocolRelative ("src=" +:+ DQ +:+ "//cdn.example.com/a.js" +:+ DQ) ≠
    "src=" +:+ DQ +:+ "/" +:+ encodeURIComponent "https://cdn.example.com" +:+ DQ.
Proof. split; by vm_compute. Qed.

End HtmlLinks.

(** ** The rewriting of cookies *)

Section Cookies.
Import JS RegExp.

Lemma test_includes (re : Matcher) (p s : string) :
  (∀ t, is_Some (re t) ↔ is_Some (litCI p t)) →
  test re s = includes p (toLowerCase s).
Proof.
  intros Hre.
  assert (Hhere : ∀ t, startsWith p (toLowerCase t) = bool_decide (is_Some (re t))).
  { intros t. destruct (startsWith p (toLowerCase t)) eqn:Hp; symmetry.
    - apply bool_decide_eq_true, Hre, litCI_startsWith, Hp.
    - apply bool_decide_eq_false. intros Hs%Hre%litCI_startsWith. congruence. }
  induction s as [|c s IH].
  - pose proof (Hhere "") as H0. cbn [test includes toLowerCase] in *.
    rewrite H0, orb_false_r. by destruct (re "").
  - pose proof (Hhere (String c s)) as H0. cbn [test includes toLowerCase] in *.
    rewrite H0, <- IH. by destruct (re (String c s)).
Qed.

Lemma test_pathAttr (s : string) :
  test pathAttr s = includes "path=" (toLowerCase s).
Proof.
  apply test_includes. intros t. unfold pathAttr.
  destruct (litCI "path=" t) as [[name r]|]; split; eauto; by intros [? ?].
Qed.

Lemma domainAttr_inv (s : string) (m : Match) :
  domainAttr s = Some m →
  ∃ name value,
    toLowerCase name = "domain=" ∧ every notSemicolon value = true ∧
    stopsAt notSemicolon (after m) = true ∧
    matched m = name +:+ value ∧ s = name +:+ value +:+ after m.
Proof.
  unfold domainAttr.
  destruct (litCI "domain=" s) as [[name r]|] eqn:Hl; [|done].
  destruct (span notSemicolon r) as [value r'] eqn:Hs.
  destruct value as [|c value]; [done |]. intros [= <-]. simpl.
  apply litCI_sound in Hl as [-> Hname]. apply span_sound in Hs as (-> & Hv & Hr).
  exists name, (String c value). done.
Qed.

(** Where [domain=] stands but the expression does not match, the value
    that follows it is empty. *)
Lemma domainAttr_none (s : string) :
  startsWith "domain=" (toLowerCase s) = true → domainAttr s = None →
  ∃ name rest,
    toLowerCase name = "domain=" ∧ stopsAt notSemicolon rest = true ∧
    s = name +:+ rest.
Proof.
  intros [[name r] Hl]%litCI_startsWith. unfold domainAttr. rewrite Hl.
  destruct (span notSemicolon r) as [value r'] eqn:Hs.
  destruct value as [|c value]; [intros _|done].
  apply litCI_sound in Hl as [-> Hname]. apply span_sound in Hs as (-> & _ & Hr).
  exists name, r'. done.
Qed.

Lemma rewriteDomain_present (cookie : string) :
  includes "domain=" (toLowerCase cookie) = true →
  ∃ pre name value rest name',
    cookie = pre +:+ name +:+ value +:+ rest ∧
    toLowerCase name = "domain=" ∧ toLowerCase name' = "domain=" ∧
    every notSemicolon value = true ∧ stopsAt notSemicolon rest = true ∧
    rewriteDomain cookie = pre +:+ name' +:+ PROXY_DOMAIN +:+ rest.
Proof.
  intros Hinc. unfold rewriteDomain. rewrite Hinc. unfold replaceFirst.
  destruct (replaceFirstFrom_cases domainAttr
              (byTemplate ("domain=" +:+ PROXY_DOMAIN)) "" cookie)
    as [(pre & t & m & -> & Hm & _ & ->)|[Hnone ->]].
  - apply domainAttr_inv in Hm as (name & value & Hname & Hvalue & Hrest & _ & ->).
    exists pre, name, value, (after m), "domain=". done.
  - apply includes_spec in Hinc as (lpre & lt & Heq & Hstart).
    assert (∃ pre t, cookie = pre +:+ t ∧ startsWith "domain=" (toLowerCase t) = true)
      as (pre & t & -> & Ht).
    { clear Hnone. revert lpre Heq. induction cookie as [|c cookie IH]; intros lpre Heq.
      - destruct lpre; [|done]. simpl in Heq. subst lt. by exists "", "".
      - destruct lpre as [|x lpre]; simpl in Heq.
        + subst lt. by exists "", (String c cookie).
        + injection Heq as _ Heq. destruct (IH _ Heq) as (pre & t & -> & Ht).
          by exists (String c pre), t. }
    destruct (domainAttr_none t Ht (Hnone pre t eq_refl)) as (name & rest & Hname & Hrest & ->).
    exists pre, name, "", rest, name. done.
Qed.

Lemma rewriteDomain_absent (cookie : string) :
  includes "domain=" (toLowerCase cookie) = false →
  rewriteDomain cookie = cookie +:+ "; Domain=" +:+ PROXY_DOMAIN.
Proof. intros Hinc. unfold rewriteDomain. by rewrite Hinc. Qed.

Lemma rewriteDomain_has_domain (cookie : string) :
  includes "domain=" (toLowerCase (rewriteDomain cookie)) = true.
Proof.
  destruct (includes "domain=" (toLowerCase cookie)) eqn:Hinc.
  - destruct (rewriteDomain_present _ Hinc)
      as (pre & name & value & rest & name' & _ & _ & Hname & _ & _ & ->).
    rewrite !toLowerCase_app, Hname. apply includes_app_r, includes_app_l. done.
  - rewrite rewriteDomain_absent by done. rewrite toLowerCase_app.
    by apply includes_app_r.
Qed.

Lemma rewriteCookie_path (cookie : string) :
  rewriteCookie cookie =
    if includes "path=" (toLowerCase (rewriteDomain cookie))
    then rewriteDomain cookie
    else rewriteDomain cookie +:+ "; Path=/".
Proof.
  unfold rewriteCookie. rewrite test_pathAttr.
  by destruct (includes "path=" (toLowerCase (rewriteDomain cookie))).
Qed.

Lemma lower_set_cookie : toLowerCase "Set-Cookie" = "set-cookie".
Proof. reflexivity. Qed.

(** Appending the rewritten directives one by one extends the list kept
    under [set-cookie] and touches no other name. *)
Lemma append_cookies (cookies : list string) (h : Headers.t) :
  let out := fold_left
    (λ newHeaders cookie, Headers.append "Set-Cookie" (rewriteCookie cookie) newHeaders)
    cookies h in
  Headers.getAll "Set-Cookie" out =
    Headers.getAll "Set-Cookie" h ++ map rewriteCookie cookies
  ∧ ∀ name, name ≠ "set-cookie" → out !! name = h !! name.
Proof.
  revert h. induction cookies as [|c cookies IH]; intros h; simpl.
  - by rewrite app_nil_r.
  - destruct (IH (Headers.append "Set-Cookie" (rewriteCookie c) h)) as [Hall Hother].
    split.
    + rewrite Hall. unfold Headers.getAll at 1, Headers.append.
      rewrite lower_set_cookie, lookup_insert_eq. simpl. by rewrite <- app_assoc.
    + intros name Hne. rewrite Hother by done. unfold Headers.append.
      rewrite lower_set_cookie. by rewrite lookup_insert_ne.
Qed.

(** C2. [handleSetCookieHeaders] keeps one directive for each Set-Cookie
    directive of the origin response, in order and without merging, and
    leaves the other headers alone.  A directive in which domain= occurs
    (in any case) has the value of such an attribute, up to the next
    semicolon, replaced by [PROXY_DOMAIN], the text around it unchanged; a
    directive without it gets [; Domain=] and [PROXY_DOMAIN] appended.  If
    path= (in any case) does not occur in the result, [; Path=/] is
    appended, and nothing else is changed.  Every directive of the output
    holds a domain= and a path= attribute. *)
Theorem set_cookie_directives_rewritten (response : Response.t) :
  let out := handleSetCookieHeaders response in
  Headers.getAll "Set-Cookie" out =
    map rewriteCookie (Headers.getAll "Set-Cookie" (Response.headers response))
  ∧ length (Headers.getAll "Set-Cookie" out) =
      length (Headers.getAll "Set-Cookie" (Response.headers response))
  ∧ (∀ name, name ≠ "set-cookie" → out !! name = Response.headers response !! name)
  ∧ ∀ cookie,
      (includes "domain=" (toLowerCase cookie) = true →
       ∃ pre name value rest name',
         cookie = pre +:+ name +:+ value +:+ rest ∧
         toLowerCase name = "domain=" ∧ toLowerCase name' = "domain=" ∧
         every notSemicolon value = true ∧ stopsAt notSemicolon rest = true ∧
         rewriteDomain cookie = pre +:+ name' +:+ PROXY_DOMAIN +:+ rest)
      ∧ (includes "domain=" (toLowerCase cookie) = false →
         rewriteDomain cookie = cookie +:+ "; Domain=" +:+ PROXY_DOMAIN)
      ∧ (includes "path=" (toLowerCase (rewriteDomain cookie)) = false →
         rewriteCookie cookie = rewriteDomain cookie +:+ "; Path=/")
      ∧ (includes "path=" (toLowerCase (rewriteDomain cookie)) = true →
         rewriteCookie cookie = rewriteDomain cookie)
      ∧ includes "domain=" (toLowerCase (rewriteCookie cookie)) = true
      ∧ includes "path=" (toLowerCase (rewriteCookie cookie)) = true.
Proof.
  intros out.
  assert (Hall : Headers.getAll "Set-Cookie" out =
            map rewriteCookie (Headers.getAll "Set-Cookie" (Response.headers response))).
  { unfold out, handleSetCookieHeaders.
    rewrite (proj1 (append_cookies _ _)).
    unfold Headers.getAll at 1, Headers.delete.
    by rewrite lower_set_cookie, lookup_delete_eq. }
  split; [done |]. split; [by rewrite Hall, length_map |]. split.
  - intros name Hne. unfold out, handleSetCookieHeaders.
    rewrite (proj2 (append_cookies _ _)) by done.
    unfold Headers.delete. rewrite lower_set_cookie. by rewrite lookup_delete_ne.
  - intros cookie. pose proof (rewriteCookie_path cookie) as Hpath.
    pose proof (rewriteDomain_has_domain cookie) as Hdom.
    repeat split.
    + apply rewriteDomain_present.
    + apply rewriteDomain_absent.
    + intros Hp. by rewrite Hp in Hpath.
    + intros Hp. by rewrite Hp in Hpath.
    + rewrite Hpath. destruct (includes "path=" _); [done |].
      rewrite toLowerCase_app. by apply includes_app_l.
    + rewrite Hpath. destruct (includes "path=" _) eqn:Hp; [done |].
      rewrite toLowerCase_app. by apply includes_app_r.
Qed.

Lemma set_cookie_directives_rewritten_witness :
  Headers.getAll "Set-Cookie"
    (handleSetCookieHeaders
       (Demo.response 200 "OK" "https://a.com/"
          (Demo.headers [("set-cookie", ["a=b"; "c=d; Domain=a.com; Path=/x"])]) Null)) =
    ["a=b; Domain=; Path=/"; "c=d; domain=; Path=/x"].
Proof.
  rewrite (proj1 (set_cookie_directives_rewritten _)). reflexivity.
Defined.

End Cookies.

(** ** Headers *)

Section HeaderFacts.
Import JS.

Lemma get_set_same (name value : string) (h : Headers.t) :
  Headers.get name (Headers.set name value h) = Some value.
Proof. unfold Headers.get, Headers.set. by rewrite lookup_insert_eq. Qed.

Lemma get_set_other (name name' value : string) (h : Headers.t) :
  toLowerCase name ≠ toLowerCase name' →
  Headers.get name (Headers.set name' value h) = Headers.get name h.
Proof.
  intros Hne. unfold Headers.get, Headers.set. by rewrite lookup_insert_ne.
Qed.

Lemma getAll_set_other (name name' value : string) (h : Headers.t) :
  toLowerCase name ≠ toLowerCase name' →
  Headers.getAll name (Headers.set name' value h) = Headers.getAll name h.
Proof.
  intros Hne. unfold Headers.getAll, Headers.set. by rewrite lookup_insert_ne.
Qed.

Lemma get_delete_same (name : string) (h : Headers.t) :
  Headers.get name (Headers.delete name h) = None.
Proof. unfold Headers.get, Headers.delete. by rewrite lookup_delete_eq. Qed.

Lemma get_delete_other (name name' : string) (h : Headers.t) :
  toLowerCase name ≠ toLowerCase name' →
  Headers.get name (Headers.delete name' h) = Headers.get name h.
Proof.
  intros Hne. unfold Headers.get, Headers.delete. by rewrite lookup_delete_ne.
Qed.

(** What [setNoCacheHeaders] and [setCorsHeaders] leave in the headers. *)
Lemma finalized_headers (h : Headers.t) :
  let h' := setCorsHeaders (setNoCacheHeaders h) in
  Headers.get "Cache-Control" h' = Some "no-store"
  ∧ Headers.get "Access-Control-Allow-Origin" h' = Some "*"
  ∧ Headers.get "Access-Control-Allow-Methods" h' = Some "GET, POST, PUT, DELETE"
  ∧ Headers.get "Access-Control-Allow-Headers" h' = Some "*".
Proof.
  unfold setCorsHeaders, setNoCacheHeaders. repeat split;
    repeat first
      [ apply get_set_same
      | rewrite get_set_other by (by vm_compute) ].
Qed.

End HeaderFacts.

(** ** Redirects *)

Section Redirects.
Import JS.
Context `{rt : Runtime}.

Lemma isRedirect_in_range (status : Z) :
  isRedirect status = true → (status <? 200) || (599 <? status) = false.
Proof.
  unfold isRedirect, redirectStatuses. simpl. rewrite !orb_true_iff.
  intros [Hs|[Hs|[Hs|[Hs|[Hs|?]]]]]; try done;
    apply Z.eqb_eq in Hs; by subst.
Qed.

Lemma Response_new_redirect (status : Z) (statusText : string) (headers : Headers.t) :
  isRedirect status = true →
  Response_new Null status statusText headers =
    Ok {| Response.status := status; Response.statusText := statusText;
          Response.headers := headers; Response.body := Null;
          Response.url := "" |}.
Proof. intros Hs. unfold Response_new. by rewrite (isRedirect_in_range _ Hs). Qed.

Lemma respond_redirect (url : URL.t) (actualUrlStr : string) (response : Response.t) :
  isRedirect (Response.status response) = true →
  respond url actualUrlStr response = handleRedirect response.
Proof. intros Hs. unfold respond. by rewrite Hs. Qed.

Lemma handleRedirect_resolved (response : Response.t) (location : string)
    (resolved : URL.t) :
  isRedirect (Response.status response) = true →
  Headers.get "location" (Response.headers response) = Some location →
  location ≠ "" →
  URL_new location (Some (Response.url response)) = Ok resolved →
  handleRedirect response =
    Ok {| Response.status := Response.status response;
          Response.statusText := Response.statusText response;
          Response.headers :=
            Headers.set "Location"
              ("/" +:+ encodeURIComponent (URL.href resolved))
              (Response.headers response);
          Response.body := Null; Response.url := "" |}.
Proof.
  intros Hs Hloc Hne Hres. unfold handleRedirect. rewrite Hloc, Hres.
  destruct location; [done |]. simpl. by apply Response_new_redirect.
Qed.

Lemma handleRedirect_unchanged (response : Response.t) :
  isRedirect (Response.status response) = true →
  Headers.get "location" (Response.headers response) = None
  ∨ Headers.get "location" (Response.headers response) = Some "" →
  handleRedirect response =
    Ok {| Response.status := Response.status response;
          Response.statusText := Response.statusText response;
          Response.headers := Response.headers response;
          Response.body := Null; Response.url := "" |}.
Proof.
  intros Hs Hloc. unfold handleRedirect.
  destruct Hloc as [-> | ->]; by apply Response_new_redirect.
Qed.

(** C3, as amended. For an origin response with a redirect status and a
    non-empty Location header that resolves against the URL of the origin
    response, the client gets the same status and status text, an empty
    body, and the headers of the origin with Location set to a slash
    followed by the percent-encoding of the resolved URL; when the Location
    header is absent or empty, the client gets status, status text and
    headers unchanged, with an empty body. *)
Theorem redirect_location_rewritten
    (url : URL.t) (actualUrlStr : string) (response : Response.t) :
  isRedirect (Response.status response) = true →
  (∀ location resolved,
     Headers.get "location" (Response.headers response) = Some location →
     location ≠ "" →
     URL_new location (Some (Response.url response)) = Ok resolved →
     respond url actualUrlStr response =
       Ok {| Response.status := Response.status response;
             Response.statusText := Response.statusText response;
             Response.headers :=
               Headers.set "Location"
                 ("/" +:+ encodeURIComponent (URL.href resolved))
                 (Response.headers response);
             Response.body := Null; Response.url := "" |})
  ∧ (Headers.get "location" (Response.headers response) = None
     ∨ Headers.get "location" (Response.headers response) = Some "" →
     respond url actualUrlStr response =
       Ok {| Response.status := Response.status response;
             Response.statusText := Response.statusText response;
             Response.headers := Response.headers response;
             Response.body := Null; Response.url := "" |}).
Proof.
  intros Hs. rewrite respond_redirect by done. split.
  - intros location resolved. by apply handleRedirect_resolved.
  - by apply handleRedirect_unchanged.
Qed.

(** C10. For an origin response with a redirect status, whatever response
    the client gets carries the headers of the origin response, the entry
    for Location apart: the Set-Cookie directives are those of the origin,
    not rewritten, and no other header is added, changed or removed; and
    the client does get such a response whenever the Location header is
    absent, empty, or resolves. *)
Theorem redirect_headers_pass_through
    (url : URL.t) (actualUrlStr : string) (response : Response.t) :
  isRedirect (Response.status response) = true →
  (∀ r, respond url actualUrlStr response = Ok r →
     (∀ name, name ≠ "location" →
        Response.headers r !! name = Response.headers response !! name)
     ∧ Headers.getAll "Set-Cookie" (Response.headers r) =
         Headers.getAll "Set-Cookie" (Response.headers response)
     ∧ (∀ name, toLowerCase name ≠ "location" →
          Headers.get name (Response.headers r) =
            Headers.get name (Response.headers response)))
  ∧ ((∀ location,
        Headers.get "location" (Response.headers response) = Some location →
        location ≠ "" →
        ∃ resolved, URL_new location (Some (Response.url response)) = Ok resolved) →
     ∃ r, respond url actualUrlStr response = Ok r).
Proof.
  intros Hs.
  assert (Hframe : ∀ r, respond url actualUrlStr response = Ok r →
            ∀ name, name ≠ "location" →
              Response.headers r !! name = Response.headers response !! name).
  { intros r. rewrite respond_redirect by done. unfold handleRedirect.
    destruct (Headers.get "location" (Response.headers response)) as [[|c l]|].
    - rewrite Response_new_redirect by done. by intros [= <-].
    - destruct (URL_new (String c l) (Some (Response.url response))) as [u|m]; simpl.
      + rewrite Response_new_redirect by done. intros [= <-] name Hne. simpl.
        unfold Headers.set. by rewrite lookup_insert_ne.
      + destruct (URL_new (Response.url response) None) as [b|]; [|done]. simpl.
        destruct (URL_new (String c l) (Some (URL.href b))) as [a|]; [|done]. simpl.
        rewrite Response_new_redirect by done. intros [= <-] name Hne. simpl.
        unfold Headers.set. by rewrite lookup_insert_ne.
    - rewrite Response_new_redirect by done. by intros [= <-]. }
  split.
  - intros r Hr. pose proof (Hframe r Hr) as Hf. split; [done | split].
    + unfold Headers.getAll. by rewrite Hf.
    + intros name Hne. unfold Headers.get. by rewrite Hf.
  - intros Hres. rewrite respond_redirect by done.
    destruct (Headers.get "location" (Response.headers response)) as [[|c l]|] eqn:Hloc.
    + eexists. apply handleRedirect_unchanged; [done | by right].
    + destruct (Hres _ eq_refl) as [resolved Hresolved]; [done |].
      eexists. by apply (handleRedirect_resolved response (String c l) resolved).
    + eexists. apply handleRedirect_unchanged; [done | by left].
Qed.

End Redirects.

Lemma redirect_location_rewritten_witness :
  @respond (Demo.runtime (Throw "unused")) Demo.incoming "https://a.com/x?y=1"
    (Demo.response 302 "Found" "https://a.com/x"
       (Demo.headers [("location", ["/login"]); ("set-cookie", ["a=b"])])
       (Stream "moved")) =
  Ok {| Response.status := 302; Response.statusText := "Found";
        Response.headers :=
          Headers.set "Location" "/https%3A%2F%2Fa.com%2Flogin"
            (Demo.headers [("location", ["/login"]); ("set-cookie", ["a=b"])]);
        Response.body := Null; Response.url := "" |}.
Proof.
  apply (proj1 (redirect_location_rewritten (rt := Demo.runtime (Throw "unused"))
                  Demo.incoming "https://a.com/x?y=1"
                  (Demo.response 302 "Found" "https://a.com/x"
                     (Demo.headers [("location", ["/login"]); ("set-cookie", ["a=b"])])
                     (Stream "moved"))
                  eq_refl)
           "/login"
           {| URL.href := "https://a.com/login"; URL.protocol := "https:";
              URL.host := "a.com"; URL.hostname := "a.com";
              URL.pathname := "/login"; URL.search := "";
              URL.origin := "https://a.com" |}).
  - reflexivity.
  - discriminate.
  - reflexivity.
Defined.

(** C3, as stated, fails: a Location header that is present but empty is
    not resolved, although it resolves to the URL of the origin response;
    the header stays empty. *)
Lemma redirect_empty_location_kept :
  isRedirect 302 = true
  ∧ Headers.get "location" (Demo.headers [("location", [""])]) = Some ""
  ∧ @URL_new (Demo.runtime (Throw "unused")) "" (Some "https://a.com/x") =
      Ok {| URL.href := "https://a.com/x"; URL.protocol := "https:";
            URL.host := "a.com"; URL.hostname := "a.com";
            URL.pathname := "/x"; URL.search := "";
            URL.origin := "https://a.com" |}
  ∧ ∃ r,
      @respond (Demo.runtime (Throw "unused")) Demo.incoming "https://a.com/x?y=1"
        (Demo.response 302 "Found" "https://a.com/x"
           (Demo.headers [("location", [""])]) Null) = Ok r
      ∧ Headers.get "location" (Response.headers r) = Some ""
      ∧ Headers.get "location" (Response.headers r) ≠
          Some ("/" +:+ JS.encodeURIComponent "https://a.com/x").
Proof.
  split; [reflexivity |]. split; [reflexivity |]. split; [reflexivity |].
  eexists. split; [reflexivity |]. split; [reflexivity | discriminate].
Qed.

Lemma redirect_headers_pass_through_witness :
  ∃ r,
    @respond (Demo.runtime (Throw "unused")) Demo.incoming "https://a.com/x?y=1"
      (Demo.response 302 "Found" "https://a.com/x"
         (Demo.headers [("location", ["/login"]); ("set-cookie", ["a=b"])])
         (Stream "moved")) = Ok r
    ∧ Headers.getAll "Set-Cookie" (Response.headers r) = ["a=b"].
Proof.
  destruct (redirect_headers_pass_through (rt := Demo.runtime (Throw "unused"))
              Demo.incoming "https://a.com/x?y=1"
              (Demo.response 302 "Found" "https://a.com/x"
                 (Demo.headers [("location", ["/login"]); ("set-cookie", ["a=b"])])
                 (Stream "moved"))
              eq_refl) as [Hframe Htotal].
  destruct Htotal as [r Hr].
  { intros location Hloc _. vm_compute in Hloc. injection Hloc as <-.
    eexists. reflexivity. }
  exists r. split; [exact Hr |].
  destruct (Hframe r Hr) as (_ & Hcookies & _). exact Hcookies.
Defined.

(** ** The response path of [handleRequest] *)

Section Responses.
Import JS.
Context `{rt : Runtime}.

Lemma Response_new_stream (body : Body) (status : Z) (statusText : string)
    (headers : Headers.t) :
  200 ≤ status ≤ 599 →
  body = Null ∨ nullBodyStatus status = false →
  ∃ headers',
    Response_new body status statusText headers =
      Ok {| Response.status := status; Response.statusText := statusText;
            Response.headers := headers'; Response.body := body;
            Response.url := "" |}.
Proof.
  intros [Hlo Hhi] Hbody. unfold Response_new.
  assert ((status <? 200) || (599 <? status) = false) as ->.
  { apply orb_false_iff. split; apply Z.ltb_ge; lia. }
  destruct Hbody as [-> | ->]; [eauto |].
  destruct body; eauto.
Qed.

(** What the constructor returns, when it returns *)
Lemma Response_new_inv (body : Body) (status : Z) (statusText : string)
    (headers : Headers.t) :
  (∃ headers',
     Response_new body status statusText headers =
       Ok {| Response.status := status; Response.statusText := statusText;
             Response.headers := headers'; Response.body := body;
             Response.url := "" |})
  ∨ (∃ message, Response_new body status statusText headers = Throw message).
Proof.
  unfold Response_new.
  destruct ((status <? 200) || (599 <? status)); [eauto |].
  destruct body; [eauto | |]; destruct (nullBodyStatus status); eauto.
Qed.

(** C9. For an origin response that is no redirect and whose Content-Type
    does not contain text/html, the response that the client gets carries
    the body of the origin response itself (the stream is handed on,
    nothing is read from it or turned into text) and the status and status
    text of the origin; and the client gets such a response whenever the
    [Response] constructor accepts the status, that is, for a status in
    200..599 that is no null-body status or comes without a body. *)
Theorem non_html_body_forwarded
    (url : URL.t) (actualUrlStr : string) (response : Response.t) :
  isRedirect (Response.status response) = false →
  (∀ contentType,
     Headers.get "Content-Type" (Response.headers response) = Some contentType →
     includes "text/html" contentType = false) →
  (∀ r,
     respond url actualUrlStr response = Ok r →
     Response.body r = Response.body response
     ∧ Response.status r = Response.status response
     ∧ Response.statusText r = Response.statusText response)
  ∧ (200 ≤ Response.status response ≤ 599 →
     Response.body response = Null ∨ nullBodyStatus (Response.status response) = false →
     ∃ r, respond url actualUrlStr response = Ok r).
Proof.
  intros Hs Htype. unfold respond. rewrite Hs.
  assert (match Headers.get "Content-Type" (Response.headers response) with
          | Some contentType => includes "text/html" contentType
          | None => false
          end = false) as ->.
  { destruct (Headers.get "Content-Type" (Response.headers response)); auto. }
  cbn [bind]. split.
  - intros r.
    destruct (Response_new_inv (Response.body response) (Response.status response)
                (Response.statusText response) (handleSetCookieHeaders response))
      as [(headers' & ->)| (m & ->)]; [|done].
    simpl. by intros [= <-].
  - intros Hrange Hbody.
    destruct (Response_new_stream (Response.body response) (Response.status response)
                (Response.statusText response) (handleSetCookieHeaders response)
                Hrange Hbody) as [headers' ->].
    simpl. eauto.
Qed.


End Responses.

Lemma non_html_body_forwarded_witness :
  ∃ r,
    @respond (Demo.runtime (Throw "unused")) Demo.incoming "https://a.com/x?y=1"
      (Demo.response 200 "OK" "https://a.com/x?y=1"
         (Demo.headers [("content-type", ["image/png"])]) (Stream "PNG")) = Ok r
    ∧ Response.body r = Stream "PNG"
    ∧ Response.status r = 200
    ∧ Response.statusText r = "OK".
Proof.
  destruct (non_html_body_forwarded (rt := Demo.runtime (Throw "unused"))
              Demo.incoming "https://a.com/x?y=1"
              (Demo.response 200 "OK" "https://a.com/x?y=1"
                 (Demo.headers [("content-type", ["image/png"])]) (Stream "PNG"))
              eq_refl) as [Hsame Hreturns].
  { intros contentType Htype. vm_compute in Htype. injection Htype as <-. reflexivity. }
  destruct Hreturns as [r Hr].
  { simpl. lia. }
  { right. reflexivity. }
  exists r. split; [exact Hr |]. exact (Hsame r Hr).
Defined.

(** C1, evaluated on a redirect: the response to a request whose origin
    answers 302 keeps status 302 and carries none of the headers
    Cache-Control, Access-Control-Allow-Origin, Access-Control-Allow-Methods
    and Access-Control-Allow-Headers. *)
Theorem redirect_response_not_finalized :
  ∃ r,
    @handleRequest
      (Demo.runtime
         (Ok (Demo.response 302 "Found" "https://a.com/x?y=1"
                (Demo.headers [("location", ["/login"])]) Null)))
      (Demo.get "https://proxy.example/https%3A%2F%2Fa.com%2Fx?y=1" ∅) = r
    ∧ Response.status r = 302
    ∧ Headers.get "Location" (Response.headers r) = Some "/https%3A%2F%2Fa.com%2Flogin"
    ∧ Headers.get "Cache-Control" (Response.headers r) = None
    ∧ Headers.get "Access-Control-Allow-Origin" (Response.headers r) = None
    ∧ Headers.get "Access-Control-Allow-Methods" (Response.headers r) = None
    ∧ Headers.get "Access-Control-Allow-Headers" (Response.headers r) = None.
Proof. eexists. split; [reflexivity |]. repeat split; by vm_compute. Qed.

(** ** The request path of [handleRequest] *)

Section Requests.
Import JS.
Context `{rt : Runtime}.

(** The lookup of the rules never fails: the wildcard entry is there. *)
Lemma rules_found (hostname : string) :
  ∃ rules,
    entries (orElse (readProperty specialCases hostname)
                    (readProperty specialCases "*")) = Ok rules.
Proof.
  unfold readProperty at 1.
  destruct (ownProperty specialCases hostname); [simpl; eauto |].
  destruct (existsb (String.eqb hostname) objectPrototype); simpl; eauto.
Qed.

Lemma handleSpecialCases_ok (request : Request.t) (url : URL.t) :
  URL_new (Request.url request) None = Ok url →
  ∃ modifiedRequest,
    handleSpecialCases request = Ok modifiedRequest
    ∧ Request.url modifiedRequest = Request.url request
    ∧ Request.redirect modifiedRequest = Request.redirect request.
Proof.
  intros Hurl. unfold handleSpecialCases. rewrite Hurl. cbn [bind].
  destruct (rules_found (URL.hostname url)) as [rules ->]. simpl. eauto.
Qed.

(** The rule of the table for [i.pximg.net] *)
Lemma special_case_pximg (request : Request.t) (url : URL.t) :
  URL_new (Request.url request) None = Ok url →
  URL.hostname url = "i.pximg.net" →
  ∃ modifiedRequest,
    handleSpecialCases request = Ok modifiedRequest
    ∧ Headers.get "Origin" (Request.headers modifiedRequest) = None
    ∧ Headers.get "Referer" (Request.headers modifiedRequest) =
        Some "https://www.pixiv.net/".
Proof.
  intros Hurl Hhost. unfold handleSpecialCases. rewrite Hurl. cbn [bind].
  rewrite Hhost. simpl.
  eexists. split; [done |]. simpl. split.
  - rewrite get_set_other by (by vm_compute). apply get_delete_same.
  - apply get_set_same.
Qed.

(** The wildcard rule, for a hostname that is neither an entry of the
    table nor the name of a member of [Object.prototype] *)
Lemma special_case_wildcard (request : Request.t) (url : URL.t) :
  URL_new (Request.url request) None = Ok url →
  ownProperty specialCases (URL.hostname url) = None →
  existsb (String.eqb (URL.hostname url)) objectPrototype = false →
  ∃ modifiedRequest,
    handleSpecialCases request = Ok modifiedRequest
    ∧ Headers.get "Origin" (Request.headers modifiedRequest) = None
    ∧ Headers.get "Referer" (Request.headers modifiedRequest) = None.
Proof.
  intros Hurl Hown Hproto. unfold handleSpecialCases, readProperty at 1.
  rewrite Hurl. cbn [bind]. rewrite Hown, Hproto. simpl.
  eexists. split; [done |]. simpl. split.
  - rewrite get_delete_other by (by vm_compute). apply get_delete_same.
  - apply get_delete_same.
Qed.

(** A hostname that names a member of [Object.prototype] gets no rule at
    all: the headers of the request stay as they are. *)
Lemma special_case_inherited (request : Request.t) (url : URL.t) :
  URL_new (Request.url request) None = Ok url →
  ownProperty specialCases (URL.hostname url) = None →
  existsb (String.eqb (URL.hostname url)) objectPrototype = true →
  ∃ modifiedRequest,
    handleSpecialCases request = Ok modifiedRequest
    ∧ Request.headers modifiedRequest = Request.headers request.
Proof.
  intros Hurl Hown Hproto. unfold handleSpecialCases, readProperty at 1.
  rewrite Hurl. cbn [bind]. rewrite Hown, Hproto. simpl. eauto.
Qed.

(** C5. The path of the request without its leading slash is
    percent-decoded; a decoded text that starts with neither http:// nor
    https:// gets the protocol of the incoming request and two slashes put
    in front; the query string of the incoming request is appended as it
    is; and the request handed to [fetch] is the one built from the parse
    of this combined text, with redirects left to the worker. *)
Theorem target_url_extracted
    (request : Request.t) (url : URL.t) (decoded : string)
    (validated target again : URL.t) :
  URL_new (Request.url request) None = Ok url →
  URL.pathname url ≠ "/" →
  decodeURIComponent (slice1 (URL.pathname url)) = Some decoded →
  let withScheme :=
    if startsWith "http://" decoded || startsWith "https://" decoded
    then decoded
    else URL.protocol url +:+ "//" +:+ decoded in
  let actualUrlStr := withScheme +:+ URL.search url in
  URL_new withScheme None = Ok validated →
  URL_new actualUrlStr None = Ok target →
  URL_new (URL.href target) None = Ok again →
  ∃ modifiedRequest,
    targetRequest request = Ok (inr (modifiedRequest, url, actualUrlStr))
    ∧ Request.url modifiedRequest = URL.href target
    ∧ Request.redirect modifiedRequest = "manual"
    ∧ handleRequestTry request =
        (let* response := fetch modifiedRequest in
         respond url actualUrlStr response).
Proof.
  intros Hurl Hpath Hdec withScheme actualUrlStr Hvalid Htarget Hagain.
  unfold handleRequestTry, targetRequest. rewrite Hurl. simpl.
  apply String.eqb_neq in Hpath. rewrite Hpath, Hdec.
  fold (ensureProtocol decoded (URL.protocol url)).
  change (ensureProtocol decoded (URL.protocol url)) with withScheme.
  rewrite Hvalid. simpl. fold actualUrlStr.
  unfold Request_new. rewrite Htarget. simpl.
  match goal with
  | |- context [handleSpecialCases ?r] =>
      destruct (handleSpecialCases_ok r again Hagain) as (m & -> & Hm & Hr)
  end.
  simpl in *. exists m. by rewrite Hm, Hr.
Qed.

(** C8. When the percent-decoding of the path fails, the answer is the
    JSON response with status 400 and the message Invalid URL encoding.;
    when anything else in the [try] block throws (the parse of the target
    URL and [fetch] are spelled out), the answer is the JSON response with
    status 500 and the message of the error; a JSON response has the given
    status, the Content-Type application/json; charset=utf-8 and as body
    the JSON text of an object whose only property, error, is the message;
    and the path /%E0%A4%A does not decode. *)
Theorem error_responses (request : Request.t) :
  (∀ url,
     URL_new (Request.url request) None = Ok url →
     decodeURIComponent (slice1 (URL.pathname url)) = None →
     handleRequest request = jsonResponse "Invalid URL encoding." 400)
  ∧ (∀ message,
       handleRequestTry request = Throw message →
       handleRequest request = jsonResponse message 500)
  ∧ (∀ url decoded message,
       URL_new (Request.url request) None = Ok url →
       URL.pathname url ≠ "/" →
       decodeURIComponent (slice1 (URL.pathname url)) = Some decoded →
       URL_new (ensureProtocol decoded (URL.protocol url)) None = Throw message →
       handleRequest request = jsonResponse message 500)
  ∧ (∀ modifiedRequest url actualUrlStr message,
       targetRequest request = Ok (inr (modifiedRequest, url, actualUrlStr)) →
       fetch modifiedRequest = Throw message →
       handleRequest request = jsonResponse message 500)
  ∧ (∀ message status,
       Response.status (jsonResponse message status) = status
       ∧ Headers.get "Content-Type" (Response.headers (jsonResponse message status)) =
           Some "application/json; charset=utf-8"
       ∧ Response.body (jsonResponse message status) =
           Text (stringifyObject1 "error" message))
  ∧ decodeURIComponent (slice1 "/%E0%A4%A") = None
  ∧ stringifyObject1 "error" "Invalid URL encoding." =
      "{" +:+ DQ +:+ "error" +:+ DQ +:+ ":" +:+ DQ +:+ "Invalid URL encoding." +:+ DQ +:+ "}".
Proof.
  repeat split.
  - intros url Hurl Hdec. unfold handleRequest, handleRequestTry, targetRequest.
    rewrite Hurl. simpl.
    destruct (String.eqb_spec (URL.pathname url) "/") as [Hroot|_].
    + rewrite Hroot in Hdec. by vm_compute in Hdec.
    + by rewrite Hdec.
  - intros message Hthrow. unfold handleRequest. by rewrite Hthrow.
  - intros url decoded message Hurl Hpath Hdec Hinvalid.
    unfold handleRequest, handleRequestTry, targetRequest. rewrite Hurl. simpl.
    apply String.eqb_neq in Hpath. by rewrite Hpath, Hdec, Hinvalid.
  - intros modifiedRequest url actualUrlStr message Htarget Hfetch.
    unfold handleRequest, handleRequestTry. by rewrite Htarget; simpl; rewrite Hfetch.
Qed.

End Requests.

Lemma target_url_extracted_witness :
  ∃ modifiedRequest,
    @targetRequest (Demo.runtime (Throw "unused"))
      (Demo.get "https://proxy.example/https%3A%2F%2Fa.com%2Fx?y=1" ∅) =
      Ok (inr (modifiedRequest, Demo.incoming, "https://a.com/x?y=1"))
    ∧ Request.url modifiedRequest = "https://a.com/x?y=1"
    ∧ Request.redirect modifiedRequest = "manual"
    ∧ @handleRequestTry (Demo.runtime (Throw "unused"))
        (Demo.get "https://proxy.example/https%3A%2F%2Fa.com%2Fx?y=1" ∅) =
        (let* response := @fetch (Demo.runtime (Throw "unused")) modifiedRequest in
         @respond (Demo.runtime (Throw "unused")) Demo.incoming "https://a.com/x?y=1"
           response).
Proof.
  apply (target_url_extracted (rt := Demo.runtime (Throw "unused"))
           (Demo.get "https://proxy.example/https%3A%2F%2Fa.com%2Fx?y=1" ∅)
           Demo.incoming "https://a.com/x"
           {| URL.href := "https://a.com/x"; URL.protocol := "https:";
              URL.host := "a.com"; URL.hostname := "a.com";
              URL.pathname := "/x"; URL.search := "";
              URL.origin := "https://a.com" |}
           {| URL.href := "https://a.com/x?y=1"; URL.protocol := "https:";
              URL.host := "a.com"; URL.hostname := "a.com";
              URL.pathname := "/x"; URL.search := "?y=1";
              URL.origin := "https://a.com" |}
           {| URL.href := "https://a.com/x?y=1"; URL.protocol := "https:";
              URL.host := "a.com"; URL.hostname := "a.com";
              URL.pathname := "/x"; URL.search := "?y=1";
              URL.origin := "https://a.com" |}).
  - reflexivity.
  - discriminate.
  - reflexivity.
  - reflexivity.
  - reflexivity.
  - reflexivity.
Defined.

Lemma error_responses_witness :
  @handleRequest (Demo.runtime (Throw "unused"))
    (Demo.get "https://proxy.example/%E0%A4%A" ∅) =
    @jsonResponse "Invalid URL encoding." 400
  ∧ @handleRequest (Demo.runtime (Throw "connection refused"))
      (Demo.get "https://proxy.example/https%3A%2F%2Fa.com%2Fx?y=1" ∅) =
      @jsonResponse "connection refused" 500.
Proof.
  split.
  - apply (proj1 (error_responses (rt := Demo.runtime (Throw "unused"))
                    (Demo.get "https://proxy.example/%E0%A4%A" ∅))
             {| URL.href := "https://proxy.example/%E0%A4%A"; URL.protocol := "https:";
                URL.host := "proxy.example"; URL.hostname := "proxy.example";
                URL.pathname := "/%E0%A4%A"; URL.search := "";
                URL.origin := "https://proxy.example" |}); reflexivity.
  - apply (proj1 (proj2 (error_responses (rt := Demo.runtime (Throw "connection refused"))
                    (Demo.get "https://proxy.example/https%3A%2F%2Fa.com%2Fx?y=1" ∅)))).
    reflexivity.
Defined.

(** C4, evaluated on the hostname constructor: the table has no entry for
    it, yet the request that is built for it still carries the Origin and
    Referer headers of the client. *)
Theorem constructor_host_keeps_origin_and_referer :
  ∃ modifiedRequest url actualUrlStr,
    @targetRequest (Demo.runtime (Throw "unused"))
      (Demo.get "https://proxy.example/http%3A%2F%2Fconstructor%2F"
         (Demo.headers [("origin", ["https://client.example"]);
                        ("referer", ["https://client.example/page"])])) =
      Ok (inr (modifiedRequest, url, actualUrlStr))
    ∧ Request.url modifiedRequest = "http://constructor/"
    ∧ ownProperty specialCases "constructor" = None
    ∧ Headers.get "Origin" (Request.headers modifiedRequest) =
        Some "https://client.example"
    ∧ Headers.get "Referer" (Request.headers modifiedRequest) =
        Some "https://client.example/page".
Proof.
  eexists _, _, _. split; [by vm_compute |]. repeat split; by vm_compute.
Qed.

(** ** [handleHtmlContent] on two small documents *)

Example html_root_relative_example :
  @handleHtmlContent (Demo.runtime (Throw "unused"))
    (Demo.response 200 "OK" "https://a.com/page"
       (Demo.headers [("content-type", ["text/html"])])
       (Stream ("<a href=" +:+ JS.DQ +:+ "/x" +:+ JS.DQ +:+ ">")))
    "https:" "proxy.example" "https://a.com/page" =
  Ok ("<a href=" +:+ JS.DQ +:+ "/https%3A%2F%2Fa.com/x" +:+ JS.DQ +:+ ">").
Proof. reflexivity. Qed.

Example html_protocol_relative_example :
  @handleHtmlContent (Demo.runtime (Throw "unused"))
    (Demo.response 200 "OK" "https://a.com/page"
       (Demo.headers [("content-type", ["text/html"])])
       (Stream ("<img src=" +:+ JS.DQ +:+ "//cdn.example.com" +:+ JS.DQ +:+ ">")))
    "https:" "proxy.example" "https://a.com/page" =
  Ok ("<img src=" +:+ JS.DQ +:+ "/https%3A%2F%2Fsrc" +:+ JS.DQ +:+ ">").
Proof. reflexivity. Qed.

(** * Further properties of the code *)

(** ** Percent-encoding and decoding *)

Section PercentCoding.
Import JS.

Lemma hexVal_hexDigit (n : nat) : (n < 16)%nat → hexVal (hexDigit n) = Some n.
Proof. intros Hn. do 16 (destruct n as [|n]; [reflexivity |]). lia. Qed.

Lemma code_lt_256 (c : ascii) : (code c < 256)%nat.
Proof. apply nat_ascii_bounded. Qed.

Lemma uriUnreserved_ascii (c : ascii) :
  uriUnreserved c = true → (code c < 128)%nat ∧ Ascii.eqb c "%" = false.
Proof.
  destruct c as [b0 b1 b2 b3 b4 b5 b6 b7].
  destruct b7; [by destruct b0, b1, b2, b3, b4, b5, b6; vm_compute |].
  intros Hc. split.
  - unfold code. destruct b0, b1, b2, b3, b4, b5, b6; vm_compute; lia.
  - destruct b0, b1, b2, b3, b4, b5, b6; vm_compute in Hc |- *; congruence.
Qed.

Lemma utf8Lead_settled (b : nat) (st : Utf8) : utf8Lead b = Some st → settled st.
Proof.
  unfold utf8Lead, settled.
  repeat (match goal with |- context [if ?b then _ else _] => destruct b end);
    intros [= <-]; simpl; first [by left | right; lia].
Qed.

Lemma utf8Step_settled (st st' : Utf8) (b : nat) :
  utf8Step st b = Some st' → settled st'.
Proof.
  unfold utf8Step. destruct (due st) as [|k].
  - apply utf8Lead_settled.
  - destruct (_ && _); [|done]. intros [= <-]. right. simpl. lia.
Qed.

Lemma utf8Step_ascii (st : Utf8) (b : nat) :
  settled st → (b < 128)%nat →
  utf8Step st b = match due st with O => Some utf8Start | S _ => None end.
Proof.
  intros Hst Hb. unfold utf8Step. destruct (due st) as [|k] eqn:Hdue.
  - unfold utf8Lead. by destruct (Nat.ltb_spec b 128); [|lia].
  - destruct Hst as [?|Hlo]; [congruence |].
    destruct (Nat.leb_spec (lo st) b); [lia | done].
Qed.

(** Outside a sequence, the decoder does not look at the rest of its
    state. *)
Lemma decodeFrom_outside (st : Utf8) (s : string) :
  due st = O → decodeFrom st s = decodeFrom utf8Start s.
Proof.
  intros Hdue. induction s as [|c s IH]; cbn [decodeFrom].
  - by rewrite Hdue.
  - destruct (Ascii.eqb c "%").
    + unfold utf8Step. by rewrite Hdue.
    + by rewrite Hdue, IH.
Qed.

Lemma decodeFrom_encode (st : Utf8) (s : string) :
  settled st →
  decodeFrom st (encodeURIComponent s) =
    if wellFormedFrom st s then Some s else None.
Proof.
  revert st. induction s as [|c s IH]; intros st Hst.
  - simpl. by destruct (due st).
  - cbn [encodeURIComponent wellFormedFrom].
    destruct (uriUnreserved c) eqn:Hc.
    + destruct (uriUnreserved_ascii c Hc) as [Hlt Hpct].
      rewrite (utf8Step_ascii st (code c) Hst Hlt).
      cbn [decodeFrom]. rewrite Hpct.
      destruct (due st) eqn:Hdue; [|done].
      rewrite (decodeFrom_outside st _ Hdue), (IH utf8Start) by (by left).
      by destruct (wellFormedFrom utf8Start s).
    + unfold percent. cbn [String.append decodeFrom]. rewrite Ascii.eqb_refl.
      pose proof (code_lt_256 c) as Hlt.
      rewrite !hexVal_hexDigit
        by (first [apply Nat.mod_upper_bound; lia
                  | apply Nat.Div0.div_lt_upper_bound; lia]).
      assert (16 * (code c / 16) + code c mod 16 = code c)%nat as ->.
      { symmetry. apply Nat.div_mod_eq. }
      destruct (utf8Step st (code c)) as [st'|] eqn:Hstep; [|done].
      rewrite (IH st') by (by eapply utf8Step_settled).
      destruct (wellFormedFrom st' s); [|done].
      unfold code. by rewrite ascii_nat_embedding.
Qed.

(** X1. Decoding an encoded text gives the text back exactly when its
    bytes are well-formed UTF-8, and fails otherwise. *)
Theorem decode_encode_round_trip (s : string) :
  decodeURIComponent (encodeURIComponent s) =
    if wellFormed s then Some s else None.
Proof. apply decodeFrom_encode. by left. Qed.

Lemma hexDigit_encodedChar (n : nat) : encodedChar (hexDigit n) = true.
Proof. do 17 (destruct n as [|n]; [reflexivity |]). reflexivity. Qed.

Lemma uriUnreserved_encodedChar (c : ascii) :
  uriUnreserved c = true → encodedChar c = true.
Proof.
  intros Hc. unfold encodedChar. rewrite Hc. cbn [orb andb].
  destruct (elem c "/?#&=$ ;") eqn:He; [|done].
  cbn [elem] in He. rewrite !orb_true_iff in He.
  destruct He as [He|[He|[He|[He|[He|[He|[He|[He|?]]]]]]]]; try done;
    apply Ascii.eqb_eq in He; subst c; by vm_compute in Hc.
Qed.

Lemma encoded_chars_only (s : string) :
  RegExp.every encodedChar (encodeURIComponent s) = true.
Proof.
  induction s as [|x s IH]; [done |]. cbn [encodeURIComponent].
  destruct (uriUnreserved x) eqn:Hx.
  - cbn [RegExp.every]. by rewrite uriUnreserved_encodedChar, IH.
  - unfold percent. cbn [String.append RegExp.every].
    by rewrite !hexDigit_encodedChar, IH.
Qed.


(** X3. A text without a percent sign decodes to itself. *)
Theorem decode_plain_text (s : string) :
  elem "%" s = false → decodeURIComponent s = Some s.
Proof.
  unfold decodeURIComponent. induction s as [|c s IH]; [done |].
  cbn [elem decodeFrom]. intros [Hc Hs]%orb_false_iff.
  rewrite Ascii.eqb_sym, Hc. cbn [due utf8Start]. by rewrite IH.
Qed.

Lemma decode_plain_text_witness :
  decodeURIComponent "example.com/a?b=c" = Some "example.com/a?b=c".
Proof. apply decode_plain_text. reflexivity. Defined.

(** An escape that is cut short at the end of the text makes the decoding
    fail, whatever precedes it. *)
Lemma decodeFrom_cutShort (t : string) :
  cutShort t → ∀ pre st, decodeFrom st (pre +:+ t) = None.
Proof.
  intros Ht pre. remember (String.length pre) as n eqn:Hn.
  revert pre Hn. induction (lt_wf n) as [n _ IH]. intros pre -> st.
  destruct pre as [|c pre].
  - destruct Ht as [-> | [c ->]]; [done |]. cbn. by destruct (due st).
  - cbn [String.append decodeFrom].
    destruct (Ascii.eqb c "%").
    + destruct pre as [|h1 [|h2 pre]]; cbn [String.append].
      * destruct Ht as [-> | [x ->]]; done.
      * destruct Ht as [-> | [x ->]]; by destruct (hexVal h1).
      * destruct (hexVal h1); [|done]. destruct (hexVal h2); [|done].
        destruct (utf8Step st _); [|done].
        rewrite (IH (String.length pre)); [done | simpl; lia | done].
    + destruct (due st); [|done].
      rewrite (IH (String.length pre)); [done | simpl; lia | done].
Qed.

End PercentCoding.

(** ** The target of a request *)

Section Targets.
Import JS.
Context `{rt : Runtime}.

Lemma undecodable_path_400 (request : Request.t) (url : URL.t) :
  URL_new (Request.url request) None = Ok url →
  decodeURIComponent (slice1 (URL.pathname url)) = None →
  handleRequest request = jsonResponse "Invalid URL encoding." 400.
Proof.
  intros Hurl Hdec. unfold handleRequest, handleRequestTry, targetRequest.
  rewrite Hurl. cbn [bind].
  destruct (String.eqb_spec (URL.pathname url) "/") as [Hroot|_].
  - rewrite Hroot in Hdec. by vm_compute in Hdec.
  - by rewrite Hdec.
Qed.

(** X4. A request whose path ends in an escape that is cut short (a
    percent sign with fewer than two characters after it) is answered with
    status 400 and the message Invalid URL encoding., whatever the rest of
    the path is and without anything being fetched. *)
Theorem cut_short_escape_400 (request : Request.t) (url : URL.t) (pre t : string) :
  URL_new (Request.url request) None = Ok url →
  URL.pathname url = "/" +:+ pre +:+ t →
  cutShort t →
  handleRequest request = jsonResponse "Invalid URL encoding." 400.
Proof.
  intros Hurl Hpath Ht. apply (undecodable_path_400 request url Hurl).
  rewrite Hpath. cbn [String.append slice1]. by apply decodeFrom_cutShort.
Qed.

(** X5. [ensureProtocol] leaves a text that starts with http:// or
    https:// alone and puts the given protocol and two slashes before any
    other; with the protocol http: or https: its result always starts with
    http:// or https://, and applying it a second time changes nothing.
    The test is case-sensitive: a text starting with HTTP:// is prefixed. *)
Theorem ensureProtocol_scheme (url protocol protocol' : string) :
  protocol = "http:" ∨ protocol = "https:" →
  (startsWith "http://" (ensureProtocol url protocol)
   || startsWith "https://" (ensureProtocol url protocol) = true)
  ∧ ensureProtocol (ensureProtocol url protocol) protocol' =
      ensureProtocol url protocol
  ∧ ensureProtocol ("HTTP://" +:+ url) protocol = protocol +:+ "//HTTP://" +:+ url.
Proof.
  intros Hp.
  assert (Hstarts : startsWith "http://" (ensureProtocol url protocol)
                    || startsWith "https://" (ensureProtocol url protocol) = true).
  { unfold ensureProtocol.
    destruct (startsWith "http://" url || startsWith "https://" url) eqn:Hu; [done |].
    destruct Hp as [-> | ->]; reflexivity. }
  split; [done |]. split.
  - unfold ensureProtocol at 1. by rewrite Hstarts.
  - reflexivity.
Qed.

Lemma ensureProtocol_scheme_witness :
  (startsWith "http://" (ensureProtocol "example.com/a" "https:")
   || startsWith "https://" (ensureProtocol "example.com/a" "https:") = true)
  ∧ ensureProtocol (ensureProtocol "example.com/a" "https:") "http:" =
      ensureProtocol "example.com/a" "https:"
  ∧ ensureProtocol ("HTTP://" +:+ "example.com/a") "https:" =
      "https:" +:+ "//HTTP://" +:+ "example.com/a".
Proof. apply ensureProtocol_scheme. by right. Defined.

(** X6. The Location that the worker sends for a redirect leads back to
    the resolved URL: it is a slash followed by a text without any further
    slash, and decoding what follows the slash, as the worker does with the
    path of the next request, gives the resolved URL, provided its bytes
    are well-formed UTF-8 (as those of a serialised URL are). *)
Theorem redirect_location_round_trip
    (url : URL.t) (actualUrlStr : string) (response : Response.t)
    (location : string) (resolved : URL.t) :
  isRedirect (Response.status response) = true →
  Headers.get "location" (Response.headers response) = Some location →
  location ≠ "" →
  URL_new location (Some (Response.url response)) = Ok resolved →
  wellFormed (URL.href resolved) = true →
  ∃ r proxyPath,
    respond url actualUrlStr response = Ok r
    ∧ Headers.get "Location" (Response.headers r) = Some proxyPath
    ∧ startsWith "/" proxyPath = true
    ∧ elem "/" (slice1 proxyPath) = false
    ∧ decodeURIComponent (slice1 proxyPath) = Some (URL.href resolved).
Proof.
  intros Hs Hloc Hne Hres Hwf.
  exists {| Response.status := Response.status response;
            Response.statusText := Response.statusText response;
            Response.headers :=
              Headers.set "Location"
                ("/" +:+ encodeURIComponent (URL.href resolved))
                (Response.headers response);
            Response.body := Null; Response.url := "" |},
    ("/" +:+ encodeURIComponent (URL.href resolved)).
  split; [|split; [|split; [|split]]].
  - rewrite respond_redirect by done. by apply (handleRedirect_resolved response location).
  - apply get_set_same.
  - reflexivity.
  - cbn [String.append slice1].
    pose proof (encoded_chars_only (URL.href resolved)) as Hall.
    induction (encodeURIComponent (URL.href resolved)) as [|c e IH]; [done |].
    cbn [RegExp.every elem] in *. apply andb_true_iff in Hall as [Hc Hall].
    rewrite IH by done. rewrite orb_false_r.
    destruct (Ascii.eqb_spec "/" c) as [<-|]; [by vm_compute in Hc | done].
  - cbn [String.append slice1]. unfold decodeURIComponent.
    rewrite decodeFrom_encode by (by left). fold (wellFormed (URL.href resolved)).
    by rewrite Hwf.
Qed.

End Targets.

Lemma cut_short_escape_400_witness :
  @handleRequest (Demo.runtime (Throw "unused")) (Demo.get "https://proxy.example/abc%4" ∅) =
    @jsonResponse "Invalid URL encoding." 400.
Proof.
  apply (cut_short_escape_400 (rt := Demo.runtime (Throw "unused"))
           (Demo.get "https://proxy.example/abc%4" ∅)
           {| URL.href := "https://proxy.example/abc%4"; URL.protocol := "https:";
              URL.host := "proxy.example"; URL.hostname := "proxy.example";
              URL.pathname := "/abc%4"; URL.search := "";
              URL.origin := "https://proxy.example" |}
           "abc" "%4").
  - reflexivity.
  - reflexivity.
  - right. by exists "4"%char.
Defined.

Lemma redirect_location_round_trip_witness :
  ∃ r proxyPath,
    @respond (Demo.runtime (Throw "unused")) Demo.incoming "https://a.com/x?y=1"
      (Demo.response 302 "Found" "https://a.com/x"
         (Demo.headers [("location", ["/login"])]) Null) = Ok r
    ∧ Headers.get "Location" (Response.headers r) = Some proxyPath
    ∧ JS.startsWith "/" proxyPath = true
    ∧ JS.elem "/" (JS.slice1 proxyPath) = false
    ∧ JS.decodeURIComponent (JS.slice1 proxyPath) = Some "https://a.com/login".
Proof.
  apply (redirect_location_round_trip (rt := Demo.runtime (Throw "unused"))
           Demo.incoming "https://a.com/x?y=1"
           (Demo.response 302 "Found" "https://a.com/x"
              (Demo.headers [("location", ["/login"])]) Null)
           "/login"
           {| URL.href := "https://a.com/login"; URL.protocol := "https:";
              URL.host := "a.com"; URL.hostname := "a.com";
              URL.pathname := "/login"; URL.search := "";
              URL.origin := "https://a.com" |}).
  - reflexivity.
  - reflexivity.
  - discriminate.
  - reflexivity.
  - reflexivity.
Defined.

(** ** The headers, method and body of the outgoing request *)

Ltac ground_eqb :=
  repeat match goal with
  | |- context [String.eqb ?a ?b] =>
      let v := eval vm_compute in (String.eqb a b) in
      change (String.eqb a b) with v
  end.

Ltac ground_lower :=
  repeat match goal with
  | |- context [JS.toLowerCase ?a] =>
      let v := eval vm_compute in (JS.toLowerCase a) in
      progress change (JS.toLowerCase a) with v
  end.

Section Outgoing.
Import JS.
Context `{rt : Runtime}.

(** The rules that can come out of the lookup *)
Lemma rules_cases (hostname : string) (rules : Obj string) :
  entries (orElse (readProperty specialCases hostname)
                  (readProperty specialCases "*")) = Ok rules →
  rules = [("Origin", "DELETE"); ("Referer", "https://www.pixiv.net/")]
  ∨ rules = [("Origin", "DELETE"); ("Referer", "DELETE")]
  ∨ rules = [].
Proof.
  unfold readProperty at 1. unfold specialCases at 1. cbn [ownProperty].
  destruct (String.eqb "i.pximg.net" hostname); [intros [= <-]; auto |].
  destruct (String.eqb "i-cf.pximg.net" hostname); [intros [= <-]; auto |].
  destruct (String.eqb "*" hostname); [intros [= <-]; auto |].
  destruct (existsb (String.eqb hostname) objectPrototype); intros [= <-]; auto.
Qed.

(** Whatever rule applies, only the entries for Origin and Referer can
    change. *)
Lemma rules_frame (hostname : string) (rules : Obj string) (h : Headers.t)
    (name : string) :
  entries (orElse (readProperty specialCases hostname)
                  (readProperty specialCases "*")) = Ok rules →
  name ≠ "origin" → name ≠ "referer" →
  fold_left applyRule rules h !! name = h !! name.
Proof.
  intros Hrules Ho Hr.
  destruct (rules_cases _ _ Hrules) as [-> | [-> | ->]]; cbn [fold_left applyRule];
    ground_eqb; unfold Headers.set, Headers.delete; ground_lower.
  - rewrite lookup_insert_ne by done. by rewrite lookup_delete_ne.
  - by rewrite !lookup_delete_ne.
  - done.
Qed.

(** X7. [handleSpecialCases] succeeds whenever the URL of the request
    parses, for every hostname, and changes nothing but the entries for
    Origin and Referer: URL, method, body, redirect mode and every other
    header of the request stay as they are. *)
Theorem special_cases_frame (request : Request.t) (url : URL.t) :
  URL_new (Request.url request) None = Ok url →
  ∃ modifiedRequest,
    handleSpecialCases request = Ok modifiedRequest
    ∧ Request.url modifiedRequest = Request.url request
    ∧ Request.method modifiedRequest = Request.method request
    ∧ Request.body modifiedRequest = Request.body request
    ∧ Request.redirect modifiedRequest = Request.redirect request
    ∧ ∀ name, name ≠ "origin" → name ≠ "referer" →
        Request.headers modifiedRequest !! name = Request.headers request !! name.
Proof.
  intros Hurl. unfold handleSpecialCases. rewrite Hurl. cbn [bind].
  destruct (rules_found (URL.hostname url)) as [rules Hrules]. rewrite Hrules.
  cbn [bind]. eexists. split; [done |]. cbn. repeat split.
  intros name Ho Hr. by apply (rules_frame (URL.hostname url)).
Qed.

(** X8. For the two hostnames i.pximg.net and i-cf.pximg.net the outgoing
    request has no Origin header and exactly the Referer
    https://www.pixiv.net/, whatever the request carried before. *)
Theorem pximg_hosts_referer (request : Request.t) (url : URL.t) :
  URL_new (Request.url request) None = Ok url →
  URL.hostname url = "i.pximg.net" ∨ URL.hostname url = "i-cf.pximg.net" →
  ∃ modifiedRequest,
    handleSpecialCases request = Ok modifiedRequest
    ∧ Headers.get "Origin" (Request.headers modifiedRequest) = None
    ∧ Headers.get "Referer" (Request.headers modifiedRequest) =
        Some "https://www.pixiv.net/".
Proof.
  intros Hurl Hhost. unfold handleSpecialCases. rewrite Hurl. cbn [bind].
  destruct Hhost as [Hhost | Hhost]; rewrite Hhost; simpl;
    (eexists; split; [done |]); simpl; split;
    first [ apply get_set_same
          | rewrite get_set_other by (by vm_compute); apply get_delete_same ].
Qed.

(** X9. For a hostname that is neither an entry of the table nor the name
    of a member of [Object.prototype], the wildcard rule applies: the
    outgoing request has neither an Origin nor a Referer header. *)
Theorem ordinary_hosts_wildcard (request : Request.t) (url : URL.t) :
  URL_new (Request.url request) None = Ok url →
  ownProperty specialCases (URL.hostname url) = None →
  existsb (String.eqb (URL.hostname url)) objectPrototype = false →
  ∃ modifiedRequest,
    handleSpecialCases request = Ok modifiedRequest
    ∧ Headers.get "Origin" (Request.headers modifiedRequest) = None
    ∧ Headers.get "Referer" (Request.headers modifiedRequest) = None.
Proof.
  intros Hurl Hown Hproto. unfold handleSpecialCases, readProperty at 1.
  rewrite Hurl. cbn [bind]. rewrite Hown, Hproto. simpl.
  eexists. split; [done |]. simpl. split.
  - rewrite get_delete_other by (by vm_compute). apply get_delete_same.
  - apply get_delete_same.
Qed.

(** What [targetRequest] has done when it hands on a request *)
Lemma targetRequest_inv (request modifiedRequest : Request.t) (url : URL.t)
    (actualUrlStr : string) :
  targetRequest request = Ok (inr (modifiedRequest, url, actualUrlStr)) →
  ∃ target hostname rules,
    URL_new actualUrlStr None = Ok target
    ∧ entries (orElse (readProperty specialCases hostname)
                      (readProperty specialCases "*")) = Ok rules
    ∧ modifiedRequest =
        {| Request.url := URL.href target;
           Request.method := Request.method request;
           Request.headers :=
             fold_left applyRule rules
               (filterHeaders (Request.headers request)
                  (λ name, negb (startsWith "cf-" (toLowerCase name))));
           Request.body :=
             (if String.eqb (Request.method request) "GET"
                 || String.eqb (Request.method request) "HEAD"
              then Null else Request.body request);
           Request.redirect := "manual" |}.
Proof.
  unfold targetRequest.
  destruct (URL_new (Request.url request) None) as [u|]; [|done]. cbn [bind].
  destruct (String.eqb (URL.pathname u) "/"); [done |].
  destruct (decodeURIComponent _) as [decoded|]; [|done].
  destruct (URL_new (ensureProtocol decoded (URL.protocol u)) None) as [v|]; [|done].
  cbn [bind]. unfold Request_new.
  destruct (URL_new (ensureProtocol decoded (URL.protocol u) +:+ URL.search u) None)
    as [target|] eqn:Htarget; [|done].
  cbn [bind]. unfold handleSpecialCases. cbn [Request.url].
  destruct (URL_new (URL.href target) None) as [again|]; [|done]. cbn [bind].
  destruct (entries _) as [rules|] eqn:Hrules; [|done]. cbn [bind].
  intros [= <- <- <-]. by exists target, (URL.hostname again), rules.
Qed.

(** X10. The request that is handed to [fetch] carries no header whose
    name starts with cf- (in any case), and every other header of the
    incoming request, Origin and Referer apart, exactly as it came in. *)
Theorem outgoing_headers_filtered
    (request modifiedRequest : Request.t) (url : URL.t) (actualUrlStr : string) :
  targetRequest request = Ok (inr (modifiedRequest, url, actualUrlStr)) →
  (∀ name, startsWith "cf-" (toLowerCase name) = true →
     Request.headers modifiedRequest !! name = None)
  ∧ (∀ name, startsWith "cf-" (toLowerCase name) = false →
       name ≠ "origin" → name ≠ "referer" →
       Request.headers modifiedRequest !! name = Request.headers request !! name).
Proof.
  intros (target & hostname & rules & _ & Hrules & ->)%targetRequest_inv.
  cbn [Request.headers]. unfold filterHeaders, Headers.filterNames. split.
  - intros name Hcf.
    rewrite (rules_frame hostname) by (done || (intros ->; by vm_compute in Hcf)).
    apply map_lookup_filter_None. right. intros values _ Hkeep.
    cbn beta in Hkeep. cbn [fst] in Hkeep. by rewrite Hcf in Hkeep.
  - intros name Hcf Ho Hr. rewrite (rules_frame hostname) by done.
    destruct (Request.headers request !! name) as [values|] eqn:Hname.
    + apply map_lookup_filter_Some. split; [done |].
      cbn beta. cbn [fst]. by rewrite Hcf.
    + apply map_lookup_filter_None. by left.
Qed.

(** X11. The request that is handed to [fetch] has the method of the
    incoming request; for GET and HEAD it has no body, for every other
    method it has the body of the incoming request itself; and it never
    follows redirects on its own. *)
Theorem outgoing_method_and_body
    (request modifiedRequest : Request.t) (url : URL.t) (actualUrlStr : string) :
  targetRequest request = Ok (inr (modifiedRequest, url, actualUrlStr)) →
  Request.method modifiedRequest = Request.method request
  ∧ (Request.method request = "GET" ∨ Request.method request = "HEAD" →
     Request.body modifiedRequest = Null)
  ∧ (Request.method request ≠ "GET" → Request.method request ≠ "HEAD" →
     Request.body modifiedRequest = Request.body request)
  ∧ Request.redirect modifiedRequest = "manual".
Proof.
  intros (target & hostname & rules & _ & _ & ->)%targetRequest_inv.
  cbn. repeat split.
  - intros [-> | ->]; reflexivity.
  - intros Hget%String.eqb_neq Hhead%String.eqb_neq. by rewrite Hget, Hhead.
Qed.

End Outgoing.

Lemma special_cases_frame_witness :
  ∃ modifiedRequest,
    @handleSpecialCases (Demo.runtime (Throw "unused"))
      (Demo.get "https://example.org/x"
         (Demo.headers [("accept", ["*/*"]); ("origin", ["https://client.example"])])) =
      Ok modifiedRequest
    ∧ Request.url modifiedRequest = "https://example.org/x"
    ∧ Request.method modifiedRequest = "GET"
    ∧ Request.body modifiedRequest = Null
    ∧ Request.redirect modifiedRequest = "follow"
    ∧ ∀ name, name ≠ "origin" → name ≠ "referer" →
        Request.headers modifiedRequest !! name =
          Demo.headers [("accept", ["*/*"]); ("origin", ["https://client.example"])] !! name.
Proof.
  apply (special_cases_frame (rt := Demo.runtime (Throw "unused"))
           (Demo.get "https://example.org/x"
              (Demo.headers [("accept", ["*/*"]); ("origin", ["https://client.example"])]))
           {| URL.href := "https://example.org/x"; URL.protocol := "https:";
              URL.host := "example.org"; URL.hostname := "example.org";
              URL.pathname := "/x"; URL.search := "";
              URL.origin := "https://example.org" |}).
  reflexivity.
Defined.

Lemma pximg_hosts_referer_witness :
  ∃ modifiedRequest,
    @handleSpecialCases (Demo.runtime (Throw "unused"))
      (Demo.get "https://i-cf.pximg.net/img.png"
         (Demo.headers [("referer", ["https://client.example/page"]);
                        ("origin", ["https://client.example"])])) =
      Ok modifiedRequest
    ∧ Headers.get "Origin" (Request.headers modifiedRequest) = None
    ∧ Headers.get "Referer" (Request.headers modifiedRequest) =
        Some "https://www.pixiv.net/".
Proof.
  apply (pximg_hosts_referer (rt := Demo.runtime (Throw "unused"))
           (Demo.get "https://i-cf.pximg.net/img.png"
              (Demo.headers [("referer", ["https://client.example/page"]);
                             ("origin", ["https://client.example"])]))
           {| URL.href := "https://i-cf.pximg.net/img.png"; URL.protocol := "https:";
              URL.host := "i-cf.pximg.net"; URL.hostname := "i-cf.pximg.net";
              URL.pathname := "/img.png"; URL.search := "";
              URL.origin := "https://i-cf.pximg.net" |}).
  - reflexivity.
  - right. reflexivity.
Defined.

Lemma ordinary_hosts_wildcard_witness :
  ∃ modifiedRequest,
    @handleSpecialCases (Demo.runtime (Throw "unused"))
      (Demo.get "https://example.org/x"
         (Demo.headers [("referer", ["https://client.example/page"]);
                        ("origin", ["https://client.example"])])) =
      Ok modifiedRequest
    ∧ Headers.get "Origin" (Request.headers modifiedRequest) = None
    ∧ Headers.get "Referer" (Request.headers modifiedRequest) = None.
Proof.
  apply (ordinary_hosts_wildcard (rt := Demo.runtime (Throw "unused"))
           (Demo.get "https://example.org/x"
              (Demo.headers [("referer", ["https://client.example/page"]);
                             ("origin", ["https://client.example"])]))
           {| URL.href := "https://example.org/x"; URL.protocol := "https:";
              URL.host := "example.org"; URL.hostname := "example.org";
              URL.pathname := "/x"; URL.search := "";
              URL.origin := "https://example.org" |}); reflexivity.
Defined.

Lemma outgoing_headers_filtered_witness :
  ∃ modifiedRequest,
    @targetRequest (Demo.runtime (Throw "unused"))
      (Demo.get "https://proxy.example/https%3A%2F%2Fa.com%2Fx?y=1"
         (Demo.headers [("cf-ray", ["8a1"]); ("accept", ["*/*"])])) =
      Ok (inr (modifiedRequest, Demo.incoming, "https://a.com/x?y=1"))
    ∧ (∀ name, JS.startsWith "cf-" (JS.toLowerCase name) = true →
         Request.headers modifiedRequest !! name = None)
    ∧ (∀ name, JS.startsWith "cf-" (JS.toLowerCase name) = false →
         name ≠ "origin" → name ≠ "referer" →
         Request.headers modifiedRequest !! name =
           Demo.headers [("cf-ray", ["8a1"]); ("accept", ["*/*"])] !! name).
Proof.
  eexists. split; [reflexivity |].
  eapply (outgoing_headers_filtered (rt := Demo.runtime (Throw "unused"))
            (Demo.get "https://proxy.example/https%3A%2F%2Fa.com%2Fx?y=1"
               (Demo.headers [("cf-ray", ["8a1"]); ("accept", ["*/*"])]))).
  reflexivity.
Defined.

Lemma outgoing_method_and_body_witness :
  ∃ modifiedRequest,
    @targetRequest (Demo.runtime (Throw "unused"))
      {| Request.url := "https://proxy.example/https%3A%2F%2Fa.com%2Fx?y=1";
         Request.method := "POST"; Request.headers := ∅;
         Request.body := Stream "payload"; Request.redirect := "follow" |} =
      Ok (inr (modifiedRequest, Demo.incoming, "https://a.com/x?y=1"))
    ∧ Request.method modifiedRequest = "POST"
    ∧ Request.body modifiedRequest = Stream "payload"
    ∧ Request.redirect modifiedRequest = "manual".
Proof.
  eexists. split; [reflexivity |].
  destruct (outgoing_method_and_body (rt := Demo.runtime (Throw "unused"))
              {| Request.url := "https://proxy.example/https%3A%2F%2Fa.com%2Fx?y=1";
                 Request.method := "POST"; Request.headers := ∅;
                 Request.body := Stream "payload"; Request.redirect := "follow" |}
              _ _ _ eq_refl) as (Hmethod & _ & Hbody & Hredirect).
  split; [exact Hmethod |]. split; [|exact Hredirect].
  apply Hbody; discriminate.
Defined.

(** ** The headers and body of responses that are no redirect *)

Section Finalizer.
Import JS.

(** X12. [setNoCacheHeaders] and [setCorsHeaders] replace whatever values
    the headers held for Cache-Control and the three CORS headers, leave
    every other header as it is, and change nothing when run again. *)
Theorem finalizer_overrides (h : Headers.t) :
  let h' := setCorsHeaders (setNoCacheHeaders h) in
  Headers.getAll "Cache-Control" h' = ["no-store"]
  ∧ Headers.getAll "Access-Control-Allow-Origin" h' = ["*"]
  ∧ Headers.getAll "Access-Control-Allow-Methods" h' = ["GET, POST, PUT, DELETE"]
  ∧ Headers.getAll "Access-Control-Allow-Headers" h' = ["*"]
  ∧ (∀ name,
       name ≠ "cache-control" → name ≠ "access-control-allow-origin" →
       name ≠ "access-control-allow-methods" →
       name ≠ "access-control-allow-headers" →
       h' !! name = h !! name)
  ∧ setCorsHeaders (setNoCacheHeaders h') = h'.
Proof.
  unfold setCorsHeaders, setNoCacheHeaders, Headers.getAll, Headers.set.
  ground_lower. cbn zeta. repeat split.
  - by simplify_map_eq.
  - by simplify_map_eq.
  - by simplify_map_eq.
  - by simplify_map_eq.
  - intros name ? ? ? ?. by simplify_map_eq.
  - apply map_eq. intros name.
    destruct (decide (name = "access-control-allow-headers")) as [->|];
      [by simplify_map_eq |].
    destruct (decide (name = "access-control-allow-methods")) as [->|];
      [by simplify_map_eq |].
    destruct (decide (name = "access-control-allow-origin")) as [->|];
      [by simplify_map_eq |].
    destruct (decide (name = "cache-control")) as [->|]; by simplify_map_eq.
Qed.

End Finalizer.

Section OtherPaths.
Import JS.
Context `{rt : Runtime}.

Lemma handleSetCookieHeaders_lookup (response : Response.t) :
  Headers.getAll "Set-Cookie" (handleSetCookieHeaders response) =
    map rewriteCookie (Headers.getAll "Set-Cookie" (Response.headers response))
  ∧ ∀ name, name ≠ "set-cookie" →
      handleSetCookieHeaders response !! name = Response.headers response !! name.
Proof.
  unfold handleSetCookieHeaders. split.
  - rewrite (proj1 (append_cookies _ _)).
    unfold Headers.getAll at 1, Headers.delete.
    by rewrite lower_set_cookie, lookup_delete_eq.
  - intros name Hne. rewrite (proj2 (append_cookies _ _)) by done.
    unfold Headers.delete. rewrite lower_set_cookie. by rewrite lookup_delete_ne.
Qed.

(** The constructor changes the headers it is given under the name
    content-type at most. *)
Lemma Response_new_headers (body : Body) (status : Z) (statusText : string)
    (headers : Headers.t) (r : Response.t) :
  Response_new body status statusText headers = Ok r →
  Response.status r = status ∧ Response.statusText r = statusText
  ∧ Response.body r = body
  ∧ (∀ name, name ≠ "content-type" → Response.headers r !! name = headers !! name)
  ∧ (is_Some (Headers.get "Content-Type" headers) → Response.headers r = headers).
Proof.
  unfold Response_new.
  destruct ((status <? 200) || (599 <? status)); [done |].
  destruct body as [|bytes|text].
  - by intros [= <-].
  - destruct (nullBodyStatus status); [done |]. by intros [= <-].
  - destruct (nullBodyStatus status); [done |].
    destruct (Headers.get "Content-Type" headers) eqn:Htype; intros [= <-]; cbn.
    + done.
    + repeat split; [|by intros [? ?]].
      intros name Hne. unfold Headers.append. ground_lower.
      by rewrite lookup_insert_ne.
Qed.

(** What [respond] has done when it returns on a path that is no
    redirect: the headers it gave to the constructor, and the response
    that the constructor built from them. *)
Lemma respond_other_inv (url : URL.t) (actualUrlStr : string) (response r : Response.t) :
  isRedirect (Response.status response) = false →
  respond url actualUrlStr response = Ok r →
  ∃ body given built,
    Response_new body (Response.status response) (Response.statusText response) given =
      Ok built
    ∧ r = {| Response.status := Response.status built;
             Response.statusText := Response.statusText built;
             Response.headers := setCorsHeaders (setNoCacheHeaders (Response.headers built));
             Response.body := Response.body built;
             Response.url := Response.url built |}
    ∧ ((body = Response.body response ∧ given = handleSetCookieHeaders response)
       ∨ (∃ text,
            handleHtmlContent response (URL.protocol url) (URL.host url) actualUrlStr =
              Ok text
            ∧ body = Text text
            ∧ given = Headers.set "Content-Length" (toString (String.length text))
                        (handleSetCookieHeaders response))).
Proof.
  intros Hs. unfold respond. rewrite Hs.
  destruct (match Headers.get "Content-Type" (Response.headers response) with
            | Some contentType => includes "text/html" contentType
            | None => false
            end).
  - destruct (handleHtmlContent response _ _ actualUrlStr) as [text|] eqn:Hhtml; [|done].
    cbn [bind].
    destruct (Response_new (Text text) _ _ _) as [built|] eqn:Hnew; [|done].
    cbn [bind]. intros [= <-]. do 3 eexists.
    split; [exact Hnew |]. split; [done |]. right. by exists text.
  - cbn [bind].
    destruct (Response_new (Response.body response) _ _ _) as [built|] eqn:Hnew; [|done].
    cbn [bind]. intros [= <-]. do 3 eexists.
    split; [exact Hnew |]. split; [done |]. by left.
Qed.

(** X13. Every response that the worker builds from an origin response
    that is no redirect carries Cache-Control: no-store and the three CORS
    headers, whatever the origin sent under these names. *)
Theorem non_redirect_responses_finalized
    (url : URL.t) (actualUrlStr : string) (response r : Response.t) :
  isRedirect (Response.status response) = false →
  respond url actualUrlStr response = Ok r →
  Headers.get "Cache-Control" (Response.headers r) = Some "no-store"
  ∧ Headers.get "Access-Control-Allow-Origin" (Response.headers r) = Some "*"
  ∧ Headers.get "Access-Control-Allow-Methods" (Response.headers r) =
      Some "GET, POST, PUT, DELETE"
  ∧ Headers.get "Access-Control-Allow-Headers" (Response.headers r) = Some "*".
Proof.
  intros Hs Hr.
  destruct (respond_other_inv _ _ _ _ Hs Hr) as (body & given & built & _ & -> & _).
  apply finalized_headers.
Qed.

(** X14. On the paths that are no redirect, the Set-Cookie directives of
    the response to the client are the rewritten directives of the origin,
    one for one and in order, and every header of the origin other than
    Set-Cookie, Content-Type, Content-Length, Cache-Control and the three
    CORS headers reaches the client unchanged. *)
Theorem non_redirect_headers
    (url : URL.t) (actualUrlStr : string) (response r : Response.t) :
  isRedirect (Response.status response) = false →
  respond url actualUrlStr response = Ok r →
  Headers.getAll "Set-Cookie" (Response.headers r) =
    map rewriteCookie (Headers.getAll "Set-Cookie" (Response.headers response))
  ∧ ∀ name,
      name ≠ "set-cookie" → name ≠ "content-type" → name ≠ "content-length" →
      name ≠ "cache-control" → name ≠ "access-control-allow-origin" →
      name ≠ "access-control-allow-methods" →
      name ≠ "access-control-allow-headers" →
      Response.headers r !! name = Response.headers response !! name.
Proof.
  intros Hs Hr.
  destruct (respond_other_inv _ _ _ _ Hs Hr)
    as (body & given & built & Hnew & -> & Hgiven).
  apply Response_new_headers in Hnew as (_ & _ & _ & Hbuilt & _).
  destruct (handleSetCookieHeaders_lookup response) as [Hcookies Hframe].
  assert (Hlookup : ∀ name,
            name ≠ "content-type" → name ≠ "content-length" →
            name ≠ "cache-control" → name ≠ "access-control-allow-origin" →
            name ≠ "access-control-allow-methods" →
            name ≠ "access-control-allow-headers" →
            setCorsHeaders (setNoCacheHeaders (Response.headers built)) !! name =
              handleSetCookieHeaders response !! name).
  { intros name ? ? ? ? ? ?.
    unfold setCorsHeaders, setNoCacheHeaders, Headers.set. ground_lower.
    rewrite !lookup_insert_ne by done. rewrite Hbuilt by done.
    destruct Hgiven as [[_ ->] | (text & _ & _ & ->)]; [done |].
    unfold Headers.set. ground_lower. by rewrite lookup_insert_ne. }
  cbn [Response.headers]. split.
  - rewrite <- Hcookies. unfold Headers.getAll. ground_lower. by rewrite Hlookup.
  - intros name ? ? ? ? ? ? ?. rewrite Hlookup by done. by apply Hframe.
Qed.

(** X15. An origin response that is no redirect, has a Content-Type that
    contains text/html and a status in 200..599 that is no null-body
    status, whose text can be read and for which the target URL parses, is
    answered with the rewritten text as body and with a Content-Length
    that is the number of bytes of the rewritten text, in decimal, in
    place of the one of the origin. *)
Theorem html_body_and_length
    (url : URL.t) (actualUrlStr : string) (response : Response.t)
    (contentType originalText : string) (target : URL.t) :
  isRedirect (Response.status response) = false →
  Headers.get "Content-Type" (Response.headers response) = Some contentType →
  includes "text/html" contentType = true →
  200 ≤ Response.status response ≤ 599 →
  nullBodyStatus (Response.status response) = false →
  Response_text response = Ok originalText →
  URL_new actualUrlStr None = Ok target →
  let modifiedText :=
    rewriteProtocolRelative
      (rewriteRootRelative (encodeURIComponent (URL.origin target)) originalText) in
  ∃ r,
    respond url actualUrlStr response = Ok r
    ∧ Response.status r = Response.status response
    ∧ Response.body r = Text modifiedText
    ∧ Headers.getAll "Content-Length" (Response.headers r) =
        [toString (String.length modifiedText)]
    ∧ Headers.get "Content-Type" (Response.headers r) = Some contentType.
Proof.
  intros Hs Htype Hhtml [Hlo Hhi] Hnull Htext Htarget modifiedText.
  unfold respond. rewrite Hs, Htype, Hhtml.
  unfold handleHtmlContent. rewrite Htext, Htarget. cbn [bind]. fold modifiedText.
  assert (Hgiven : Headers.get "Content-Type"
            (Headers.set "Content-Length" (toString (String.length modifiedText))
               (handleSetCookieHeaders response)) = Some contentType).
  { rewrite get_set_other by (by vm_compute). rewrite <- Htype.
    unfold Headers.get. ground_lower.
    by rewrite (proj2 (handleSetCookieHeaders_lookup response)). }
  unfold Response_new.
  assert ((Response.status response <? 200) || (599 <? Response.status response) = false)
    as ->.
  { apply orb_false_iff. split; apply Z.ltb_ge; lia. }
  rewrite Hnull, Hgiven. cbn [bind]. eexists. split; [done |].
  cbn [Response.status Response.body Response.headers].
  split; [done |]. split; [done |]. split.
  - unfold setCorsHeaders, setNoCacheHeaders, Headers.getAll, Headers.set. ground_lower.
    rewrite !lookup_insert_ne by done. by rewrite lookup_insert_eq.
  - unfold setCorsHeaders, setNoCacheHeaders.
    rewrite !get_set_other by (by vm_compute).
    rewrite get_set_other in Hgiven by (by vm_compute). exact Hgiven.
Qed.


End OtherPaths.

Lemma non_redirect_responses_finalized_witness :
  ∃ r,
    @respond (Demo.runtime (Throw "unused")) Demo.incoming "https://a.com/x?y=1"
      (Demo.response 200 "OK" "https://a.com/x?y=1"
         (Demo.headers [("content-type", ["image/png"]);
                        ("cache-control", ["max-age=3600"]);
                        ("access-control-allow-origin", ["https://a.com"])])
         (Stream "PNG")) = Ok r
    ∧ Headers.get "Cache-Control" (Response.headers r) = Some "no-store"
    ∧ Headers.get "Access-Control-Allow-Origin" (Response.headers r) = Some "*"
    ∧ Headers.get "Access-Control-Allow-Methods" (Response.headers r) =
        Some "GET, POST, PUT, DELETE"
    ∧ Headers.get "Access-Control-Allow-Headers" (Response.headers r) = Some "*".
Proof.
  eexists. split; [reflexivity |].
  apply (non_redirect_responses_finalized (rt := Demo.runtime (Throw "unused"))
           Demo.incoming "https://a.com/x?y=1"
           (Demo.response 200 "OK" "https://a.com/x?y=1"
              (Demo.headers [("content-type", ["image/png"]);
                             ("cache-control", ["max-age=3600"]);
                             ("access-control-allow-origin", ["https://a.com"])])
              (Stream "PNG"))); reflexivity.
Defined.

Lemma non_redirect_headers_witness :
  ∃ r,
    @respond (Demo.runtime (Throw "unused")) Demo.incoming "https://a.com/x?y=1"
      (Demo.response 200 "OK" "https://a.com/x?y=1"
         (Demo.headers [("content-type", ["image/png"]); ("etag", ["abc"]);
                        ("set-cookie", ["a=b"; "c=d; Path=/x"])])
         (Stream "PNG")) = Ok r
    ∧ Headers.getAll "Set-Cookie" (Response.headers r) =
        ["a=b; Domain=; Path=/"; "c=d; Path=/x; Domain="]
    ∧ Response.headers r !! "etag" = Some ["abc"].
Proof.
  eexists. split; [reflexivity |].
  destruct (non_redirect_headers (rt := Demo.runtime (Throw "unused"))
              Demo.incoming "https://a.com/x?y=1"
              (Demo.response 200 "OK" "https://a.com/x?y=1"
                 (Demo.headers [("content-type", ["image/png"]); ("etag", ["abc"]);
                                ("set-cookie", ["a=b"; "c=d; Path=/x"])])
                 (Stream "PNG"))
              _ eq_refl eq_refl) as [Hcookies Hframe].
  split; [exact Hcookies |]. apply Hframe; discriminate.
Defined.

Lemma html_body_and_length_witness :
  ∃ r,
    @respond (Demo.runtime (Throw "unused")) Demo.incoming "https://a.com/x?y=1"
      (Demo.response 200 "OK" "https://a.com/x?y=1"
         (Demo.headers [("content-type", ["text/html; charset=utf-8"]);
                        ("content-length", ["17"])])
         (Stream "<a href='/x'></a>")) = Ok r
    ∧ Response.status r = 200
    ∧ Response.body r = Text "<a href='/https%3A%2F%2Fa.com/x'></a>"
    ∧ Headers.getAll "Content-Length" (Response.headers r) = ["37"]
    ∧ Headers.get "Content-Type" (Response.headers r) = Some "text/html; charset=utf-8".
Proof.
  apply (html_body_and_length (rt := Demo.runtime (Throw "unused"))
           Demo.incoming "https://a.com/x?y=1"
           (Demo.response 200 "OK" "https://a.com/x?y=1"
              (Demo.headers [("content-type", ["text/html; charset=utf-8"]);
                             ("content-length", ["17"])])
              (Stream "<a href='/x'></a>"))
           "text/html; charset=utf-8" "<a href='/x'></a>"
           {| URL.href := "https://a.com/x?y=1"; URL.protocol := "https:";
              URL.host := "a.com"; URL.hostname := "a.com";
              URL.pathname := "/x"; URL.search := "?y=1";
              URL.origin := "https://a.com" |}).
  - reflexivity.
  - reflexivity.
  - reflexivity.
  - simpl. lia.
  - reflexivity.
  - reflexivity.
  - reflexivity.
Defined.


(** ** Documents and cookies that are left as they are *)

Section Untouched.
Import JS RegExp.
Context `{rt : Runtime}.

(** Without an attribute name followed by [=], a quote and a slash,
    neither expression matches anywhere. *)
Lemma no_relative_link (text pre t p1 p2 r : string) :
  hasRelativeLink text = false → text = pre +:+ t →
  attrPrefix t = Some (p1, p2, r) → lit "/" r = None.
Proof.
  intros Hnone -> Hprefix. destruct (lit "/" r) as [r'|] eqn:Hlit; [|done].
  apply attrPrefix_sound in Hprefix as (q & Ha & Hq & -> & ->).
  apply lit_spec in Hlit as ->. exfalso.
  apply not_true_iff_false in Hnone. apply Hnone. unfold hasRelativeLink.
  apply existsb_exists. exists p2. split; [by apply list_elem_of_In |].
  apply existsb_exists. exists q. split; [by apply list_elem_of_In |].
  apply includes_spec. exists pre, (p2 +:+ "=" +:+ q +:+ "/" +:+ r').
  split; [by rewrite !app_assoc_s |].
  replace (p2 +:+ "=" +:+ q +:+ "/" +:+ r') with ((p2 +:+ "=" +:+ q +:+ "/") +:+ r')
    by (by rewrite !app_assoc_s).
  apply startsWith_app.
Qed.

(** X17. A document that nowhere holds href, src or action followed by
    [=], a quote and a slash comes out of [handleHtmlContent] exactly as
    it was read: absolute and path-relative links, and every other text,
    are never touched. *)
Theorem html_without_relative_links
    (response : Response.t) (protocol host actualUrlStr text : string) (target : URL.t) :
  Response_text response = Ok text →
  URL_new actualUrlStr None = Ok target →
  hasRelativeLink text = false →
  handleHtmlContent response protocol host actualUrlStr = Ok text.
Proof.
  intros Htext Htarget Hnone. unfold handleHtmlContent.
  rewrite Htext, Htarget. cbn [bind]. f_equal.
  assert (rewriteRootRelative (encodeURIComponent (URL.origin target)) text = text) as ->.
  { rewrite rewriteRootRelative_insert by apply encodeURIComponent_plain.
    apply (replaceAll_none _ _ rootRelative_sound (insertAfter_local _)).
    intros pre t Heq. unfold rootRelative.
    destruct (attrPrefix t) as [[[p1 p2] r]|] eqn:Hprefix; [|done].
    by rewrite (no_relative_link text pre t p1 p2 r). }
  unfold rewriteProtocolRelative.
  apply (replaceAll_none _ _ protocolRelative_sound protocolRelativeCallback_local).
  intros pre t Heq. unfold protocolRelative.
  destruct (attrPrefix t) as [[[p1 p2] r]|] eqn:Hprefix; [|done].
  pose proof (no_relative_link text pre t p1 p2 r Hnone Heq Hprefix) as Hslash.
  destruct (lit "//" r) as [r'|] eqn:Hlit; [|done].
  apply lit_spec in Hlit as ->.
  assert (lit "/" ("//" +:+ r') = Some ("/" +:+ r')) by (by apply lit_spec).
  congruence.
Qed.

(** X18. The path that the protocol-relative substitution writes is built
    from the attribute name and not from the host: two slashes and any
    host after href, src or action, [=] and a quote become a slash and the
    percent-encoding of https:// followed by that attribute name. *)
Theorem protocol_relative_encodes_attribute_name (pre a q host rest : string) :
  a ∈ attributes → q ∈ quotes →
  host ≠ "" → every hostChar host = true → stopsAt hostChar rest = true →
  openHost pre = false →
  rewriteProtocolRelative (pre +:+ a +:+ "=" +:+ q +:+ "//" +:+ host +:+ rest) =
    rewriteProtocolRelative pre +:+
    a +:+ "=" +:+ q +:+ "/" +:+ encodeURIComponent ("https://" +:+ a) +:+
    rewriteProtocolRelative rest.
Proof. apply protocol_relative_inserts_name. Qed.

(** A text found in [a +:+ b] lies in [a], lies in [b], or runs across
    the place where the two meet. *)
Lemma includes_app_inv (p a b : string) :
  includes p (a +:+ b) = true →
  includes p a = true ∨ includes p b = true
  ∨ ∃ p1 p2, p1 ≠ "" ∧ p2 ≠ "" ∧ p = p1 +:+ p2 ∧ startsWith p2 b = true.
Proof.
  intros (pre & t & Heq & [r ->]%startsWith_spec)%includes_spec.
  destruct (app_eq_app_s _ _ _ _ Heq) as [(k & -> & Hk)|(k & _ & -> & ->)].
  - destruct (app_eq_app_s _ _ _ _ Hk) as [(k' & -> & ->)|(k' & _ & -> & ->)].
    + destruct k as [|x k].
      * right. left. apply includes_spec. exists "", (k' +:+ r).
        split; [done | apply startsWith_app].
      * destruct k' as [|y k'].
        -- left. apply includes_app_r. rewrite app_nil_r_s.
           apply includes_spec. exists "", (String x k +:+ "").
           split; [by rewrite app_nil_r_s | apply startsWith_app].
        -- right. right. exists (String x k), (String y k').
           repeat split; try done. apply startsWith_app.
    + left. apply includes_app_r, includes_app_l. apply includes_spec.
      exists "", (p +:+ ""). split; [by rewrite app_nil_r_s | apply startsWith_app].
  - right. left. apply includes_app_r. apply includes_spec.
    exists "", (p +:+ r). split; [done | apply startsWith_app].
Qed.

Lemma domain_suffix_has_no_path (cookie : string) :
  includes "path=" (toLowerCase cookie) = false →
  includes "path=" (toLowerCase (cookie +:+ "; Domain=" +:+ PROXY_DOMAIN)) = false.
Proof.
  intros Hc. rewrite toLowerCase_app.
  destruct (includes "path=" (toLowerCase cookie +:+ toLowerCase ("; Domain=" +:+ PROXY_DOMAIN)))
    eqn:Hinc; [|done].
  apply includes_app_inv in Hinc as [Hinc | [Hinc | (p1 & p2 & H1 & H2 & Hp & Hstart)]].
  - congruence.
  - by vm_compute in Hinc.
  - exfalso. destruct p2 as [|x p2]; [done |].
    assert (x = ";"%char) as ->.
    { change (toLowerCase ("; Domain=" +:+ PROXY_DOMAIN)) with "; domain=" in Hstart.
      cbn [startsWith] in Hstart. apply andb_true_iff in Hstart as [Hx _].
      by apply Ascii.eqb_eq in Hx. }
    repeat (destruct p1 as [|? p1]; [done |]; injection Hp as <- Hp).
    by destruct p1.
Qed.

(** X19. A directive in which domain= does not occur (in any case) is
    never altered itself: it gets [; Domain=] appended, and [; Path=/]
    after that exactly when path= does not occur in it either. *)
Theorem cookie_without_domain (cookie : string) :
  includes "domain=" (toLowerCase cookie) = false →
  rewriteCookie cookie =
    cookie +:+ "; Domain=" +:+
    (if includes "path=" (toLowerCase cookie) then "" else "; Path=/").
Proof.
  intros Hdomain. rewrite rewriteCookie_path, rewriteDomain_absent by done.
  destruct (includes "path=" (toLowerCase cookie)) eqn:Hpath.
  - rewrite toLowerCase_app, includes_app_l by done. reflexivity.
  - rewrite domain_suffix_has_no_path by done.
    unfold PROXY_DOMAIN. by rewrite !app_assoc_s.
Qed.

End Untouched.

Lemma html_without_relative_links_witness :
  @handleHtmlContent (Demo.runtime (Throw "unused"))
    (Demo.response 200 "OK" "https://a.com/page"
       (Demo.headers [("content-type", ["text/html"])])
       (Stream "<a href='https://b.org/x'>b</a> <img src='pic.png'>"))
    "https:" "proxy.example" "https://a.com/page" =
  Ok "<a href='https://b.org/x'>b</a> <img src='pic.png'>".
Proof.
  apply (html_without_relative_links (rt := Demo.runtime (Throw "unused"))
           _ "https:" "proxy.example" "https://a.com/page" _
           {| URL.href := "https://a.com/page"; URL.protocol := "https:";
              URL.host := "a.com"; URL.hostname := "a.com";
              URL.pathname := "/page"; URL.search := "";
              URL.origin := "https://a.com" |}).
  - reflexivity.
  - reflexivity.
  - reflexivity.
Defined.

Lemma protocol_relative_encodes_attribute_name_witness :
  rewriteProtocolRelative
    ("<form " +:+ "action" +:+ "=" +:+ "'" +:+ "//" +:+ "forms.example.org" +:+ "/send'>") =
    rewriteProtocolRelative "<form " +:+
    "action" +:+ "=" +:+ "'" +:+ "/" +:+ JS.encodeURIComponent ("https://" +:+ "action") +:+
    rewriteProtocolRelative "/send'>".
Proof.
  apply protocol_relative_encodes_attribute_name.
  - unfold RegExp.attributes. do 2 apply list_elem_of_further. apply list_elem_of_here.
  - unfold RegExp.quotes. apply list_elem_of_further, list_elem_of_here.
  - discriminate.
  - reflexivity.
  - reflexivity.
  - reflexivity.
Defined.

Lemma cookie_without_domain_witness :
  rewriteCookie "sid=abc; Path=/app; HttpOnly" =
    "sid=abc; Path=/app; HttpOnly" +:+ "; Domain=" +:+
    (if JS.includes "path=" (JS.toLowerCase "sid=abc; Path=/app; HttpOnly")
     then "" else "; Path=/").
Proof. apply cookie_without_domain. reflexivity. Defined.

(** ** The responses the worker can give *)

Section Outcomes.
Context `{rt : Runtime}.





End Outcomes.

